(** * consul-k8s: the connect sidecar container and the connect-sidecar command

    The first part embeds [connectSidecar] of
    [connect-inject/connect_sidecar.go]: the method of the injection handler
    that renders the invocation of the [connect-sidecar] sub-command as a
    container of the pod under injection.  The Kubernetes API structs are
    records, Go strings are byte strings, the annotation map is a finite map,
    and the two pointer arguments are addresses into an explicit heap, so
    that "the call leaves its arguments alone" is a statement about the heap
    and not about the notation.

    The second part concerns the [connect-sidecar] sub-command itself. *)

From Stdlib Require Import ZArith Ascii String List Lia Bool.
From stdpp Require Import base option gmap strings list.

Local Open Scope string_scope.
Local Open Scope Z_scope.

(** ** Go strings

    A Go string is an immutable sequence of bytes; [string] (a list of 8-bit
    [ascii]) is exactly that.  The functions of package [unicode/utf8] and
    [strings] that [connectSidecar] reaches through [strings.TrimSpace] are
    written over the list of bytes, with Go's [int] indices as [Z]. *)

Module utf8.

Definition RuneError : Z := 0xFFFD.
Definition RuneSelf : Z := 0x80.
Definition UTFMax : Z := 4.

Definition byte (c : ascii) : Z := Z.of_N (N_of_ascii c).

(** [s[i]], for an index the caller has checked to be in range. *)
Definition at_ (s : list ascii) (i : Z) : Z :=
  match s !! Z.to_nat i with
  | Some c => byte c
  | None => 0
  end.

(** [s[i:j]] *)
Definition slice (s : list ascii) (i j : Z) : list ascii :=
  take (Z.to_nat (j - i)) (drop (Z.to_nat i) s).

Definition len (s : list ascii) : Z := Z.of_nat (length s).

Definition locb : Z := 0x80.
Definition hicb : Z := 0xBF.

Definition xx : Z := 0xF1.
Definition as_ : Z := 0xF0.
Definition s1 : Z := 0x02.
Definition s2 : Z := 0x13.
Definition s3 : Z := 0x03.
Definition s4 : Z := 0x23.
Definition s5 : Z := 0x34.
Definition s6 : Z := 0x04.
Definition s7 : Z := 0x44.

(** The table [first]: information about the first byte of an encoding. *)
Definition first (b : Z) : Z :=
  if b <? 0x80 then as_
  else if b <? 0xC2 then xx
  else if b <? 0xE0 then s1
  else if b =? 0xE0 then s2
  else if b <? 0xED then s3
  else if b =? 0xED then s4
  else if b <? 0xF0 then s3
  else if b =? 0xF0 then s5
  else if b <? 0xF4 then s6
  else if b =? 0xF4 then s7
  else xx.

(** The table [acceptRanges]: the range of a valid second byte. *)
Definition acceptRanges (k : Z) : Z * Z :=
  if k =? 0 then (locb, hicb)
  else if k =? 1 then (0xA0, hicb)
  else if k =? 2 then (locb, 0x9F)
  else if k =? 3 then (0x90, hicb)
  else if k =? 4 then (locb, 0x8F)
  else (0, 0).

Definition mask2 : Z := 0x1F.
Definition mask3 : Z := 0x0F.
Definition mask4 : Z := 0x07.
Definition maskx : Z := 0x3F.

(** [utf8.DecodeRuneInString]: the first rune of [s] and its width in
    bytes; [(RuneError, 0)] on the empty string and [(RuneError, 1)] on an
    invalid encoding. *)
Definition DecodeRuneInString (s : list ascii) : Z * Z :=
  let n := len s in
  if n <? 1 then (RuneError, 0) else
  let s0 := at_ s 0 in
  let x := first s0 in
  if as_ <=? x then
    (* the mask of the source is all ones for [xx] and zero for [as] *)
    ((if Z.testbit x 0 then RuneError else s0), 1)
  else
  let sz := Z.land x 7 in
  let accept := acceptRanges (Z.shiftr x 4) in
  if n <? sz then (RuneError, 1) else
  let b1 := at_ s 1 in
  if (b1 <? fst accept) || (snd accept <? b1) then (RuneError, 1) else
  if sz <=? 2 then
    (Z.lor (Z.shiftl (Z.land s0 mask2) 6) (Z.land b1 maskx), 2)
  else
  let b2 := at_ s 2 in
  if (b2 <? locb) || (hicb <? b2) then (RuneError, 1) else
  if sz <=? 3 then
    (Z.lor (Z.lor (Z.shiftl (Z.land s0 mask3) 12)
                  (Z.shiftl (Z.land b1 maskx) 6))
           (Z.land b2 maskx), 3)
  else
  let b3 := at_ s 3 in
  if (b3 <? locb) || (hicb <? b3) then (RuneError, 1) else
  (Z.lor (Z.lor (Z.lor (Z.shiftl (Z.land s0 mask4) 18)
                       (Z.shiftl (Z.land b1 maskx) 12))
                (Z.shiftl (Z.land b2 maskx) 6))
         (Z.land b3 maskx), 4).

(** [utf8.RuneStart]: the byte is not a continuation byte. *)
Definition RuneStart (b : Z) : bool :=
  negb (Z.land b 0xC0 =? 0x80).

(** The backward scan of [DecodeLastRuneInString]:
    [for start--; start >= lim; start-- { if RuneStart(s[start]) { break } }],
    entered with [start] already decremented. *)
Fixpoint scanStart (fuel : nat) (s : list ascii) (lim start : Z) : Z :=
  match fuel with
  | O => start
  | S fuel' =>
      if start <? lim then start
      else if RuneStart (at_ s start) then start
      else scanStart fuel' s lim (start - 1)
  end.

(** [utf8.DecodeLastRuneInString]: the last rune of [s] and its width. *)
Definition DecodeLastRuneInString (s : list ascii) : Z * Z :=
  let end_ := len s in
  if end_ =? 0 then (RuneError, 0) else
  let start := end_ - 1 in
  let r := at_ s start in
  if r <? RuneSelf then (r, 1) else
  let lim := end_ - UTFMax in
  let lim := if lim <? 0 then 0 else lim in
  let start := scanStart (Z.to_nat UTFMax) s lim (start - 1) in
  let start := if start <? 0 then 0 else start in
  let '(r, size) := DecodeRuneInString (slice s start end_) in
  if negb (start + size =? end_) then (RuneError, 1) else (r, size).

End utf8.

Module unicode.

Definition MaxLatin1 : Z := 0xFF.

(** The range table [White_Space] above Latin-1. *)
Definition White_Space_excludingLatin (r : Z) : bool :=
  (r =? 0x1680)
  || ((0x2000 <=? r) && (r <=? 0x200a))
  || ((0x2028 <=? r) && (r <=? 0x2029))
  || (r =? 0x202f) || (r =? 0x205f)
  || (r =? 0x3000).

(** [unicode.IsSpace] *)
Definition IsSpace (r : Z) : bool :=
  if (0 <=? r) && (r <=? MaxLatin1) then
    (r =? 0x09) || (r =? 0x0A) || (r =? 0x0B) || (r =? 0x0C) || (r =? 0x0D)
    || (r =? 0x20) || (r =? 0x85) || (r =? 0xA0)
  else White_Space_excludingLatin r.

End unicode.

Module strings.

Import utf8.

(** [indexFunc]: the index of the first rune [r] of [s] with
    [f r = truth], or [-1].  The loop is [for i, r := range s], which
    decodes as [DecodeRuneInString] does; [i] is the index reached. *)
Fixpoint indexFunc_loop (fuel : nat) (s : list ascii) (i : Z)
    (f : Z -> bool) (truth : bool) : Z :=
  match fuel with
  | O => -1
  | S fuel' =>
      if len s <=? i then -1 else
      let '(r, size) := DecodeRuneInString (slice s i (len s)) in
      if Bool.eqb (f r) truth then i
      else indexFunc_loop fuel' s (i + size) f truth
  end.

Definition indexFunc (s : list ascii) (f : Z -> bool) (truth : bool) : Z :=
  indexFunc_loop (length s) s 0 f truth.

(** [lastIndexFunc]: the same from the end,
    [for i := len(s); i > 0; { r, size := DecodeLastRuneInString(s[0:i]); ... }]. *)
Fixpoint lastIndexFunc_loop (fuel : nat) (s : list ascii) (i : Z)
    (f : Z -> bool) (truth : bool) : Z :=
  match fuel with
  | O => -1
  | S fuel' =>
      if i <=? 0 then -1 else
      let '(r, size) := DecodeLastRuneInString (slice s 0 i) in
      let i := i - size in
      if Bool.eqb (f r) truth then i
      else lastIndexFunc_loop fuel' s i f truth
  end.

Definition lastIndexFunc (s : list ascii) (f : Z -> bool) (truth : bool) : Z :=
  lastIndexFunc_loop (length s) s (len s) f truth.

Definition TrimLeftFunc (s : list ascii) (f : Z -> bool) : list ascii :=
  let i := indexFunc s f false in
  if i =? -1 then [] else slice s i (len s).

Definition TrimRightFunc (s : list ascii) (f : Z -> bool) : list ascii :=
  let i := lastIndexFunc s f false in
  let i :=
    if (0 <=? i) && (RuneSelf <=? at_ s i)
    then i + snd (DecodeRuneInString (slice s i (len s)))
    else i + 1 in
  slice s 0 i.

Definition TrimFunc (s : list ascii) (f : Z -> bool) : list ascii :=
  TrimRightFunc (TrimLeftFunc s f) f.

(** [strings.TrimSpace]: [s] without its leading and trailing white
    space, as Unicode defines it. *)
Definition TrimSpace (s : string) : string :=
  string_of_list_ascii (TrimFunc (list_ascii_of_string s) unicode.IsSpace).

End strings.

(** ** Trimming, in the words of the specification

    The specification has the value of the sync-period flag "passed through
    verbatim after trimming whitespace".  Two readings of these words are
    compared with [strings.TrimSpace] below.

    In general: the value is white space, then the flag's value, then white
    space, where white space is a row of encodings of white-space runes and
    the flag's value neither starts nor ends with such a rune. *)

(** White space, as a string: encodings of white-space runes in a row. *)
Inductive spaces : list ascii -> Prop :=
  | spaces_nil : spaces []
  | spaces_cons (enc rest : list ascii) (r : Z) :
      utf8.DecodeRuneInString enc = (r, utf8.len enc) ->
      unicode.IsSpace r = true ->
      spaces rest ->
      spaces (enc ++ rest)%list.

(** For a value written in ASCII: drop the white-space characters at the
    front, drop those at the back, keep what is between.  [trimmed] says so
    without decoding anything. *)

Definition whitespace (c : ascii) : bool :=
  match c with
  | "009"%char | "010"%char | "011"%char | "012"%char | "013"%char
  | " "%char => true
  | _ => false
  end.

Fixpoint dropLeading (s : list ascii) : list ascii :=
  match s with
  | [] => []
  | c :: t => if whitespace c then dropLeading t else s
  end.

Definition dropTrailing (s : list ascii) : list ascii :=
  rev (dropLeading (rev s)).

Definition trimmed (s : string) : string :=
  string_of_list_ascii (dropTrailing (dropLeading (list_ascii_of_string s))).

Definition isASCII (s : list ascii) : bool :=
  forallb (fun c => utf8.byte c <? utf8.RuneSelf) s.

(** ** The Kubernetes API structs

    Of package [corev1] and [metav1], with the fields the handler and its
    tests touch.  A Go pointer field is an [option]; a slice is a list (the
    [nil] slice is the empty list); [map[string]string] is a finite map (a
    lookup in the [nil] map finds nothing, as in the empty map). *)

Module ObjectFieldSelector.
Record t := { FieldPath : string }.
End ObjectFieldSelector.

Module EnvVarSource.
Record t := { FieldRef : option ObjectFieldSelector.t }.
End EnvVarSource.

Module EnvVar.
Record t := {
  Name : string;
  Value : string;
  ValueFrom : option EnvVarSource.t
}.
End EnvVar.

Module VolumeMount.
Record t := {
  Name : string;
  MountPath : string
}.
End VolumeMount.

Module Container.
Record t := {
  Name : string;
  Image : string;
  Command : list string;
  Args : list string;
  Env : list EnvVar.t;
  VolumeMounts : list VolumeMount.t
}.
End Container.

Module ObjectMeta.
Record t := {
  Name : string;
  Namespace : string;
  Labels : gmap string string;
  Annotations : gmap string string
}.
End ObjectMeta.

Module PodSpec.
Record t := {
  Containers : list Container.t
}.
End PodSpec.

Module Pod.
Record t := {
  ObjectMeta : ObjectMeta.t;
  Spec : PodSpec.t
}.
End Pod.

(** The injection handler: the fields [connectSidecar] and its tests name.
    [Log] stands for the name of the handler's logger. *)
Module Handler.
Record t := {
  Log : string;
  ImageConsulK8s : string;
  AuthMethod : string
}.
End Handler.

(** ** Pointers, the heap and calls

    [connectSidecar] has a pointer receiver and a pointer argument.  A
    pointer is [nil] or an address; the heap maps the addresses in use to
    the structs they hold, and the world also carries what has been written
    to the handler's log.  A call maps a world to its outcome (a value, or a
    run-time panic) and the world it leaves. *)

Inductive ptr := nilptr | addr (a : positive).

Record World := {
  handlers : gmap positive Handler.t;
  pods : gmap positive Pod.t;
  logged : list string
}.

Inductive outcome (A : Type) :=
  | Return (a : A)
  | Panic (msg : string).
Arguments Return {A} a.
Arguments Panic {A} msg.

Definition Exec (A : Type) : Type := World -> outcome A * World.

#[global] Instance Exec_ret : MRet Exec :=
  fun A (a : A) w => (Return a, w).

#[global] Instance Exec_bind : MBind Exec :=
  fun A B (k : A -> Exec B) (m : Exec A) w =>
    match m w with
    | (Return a, w') => k a w'
    | (Panic msg, w') => (Panic msg, w')
    end.

Definition nilDeref : string :=
  "runtime error: invalid memory address or nil pointer dereference".

Definition derefHandler (h : ptr) (w : World) : option Handler.t :=
  match h with
  | nilptr => None
  | addr a => handlers w !! a
  end.

Definition derefPod (p : ptr) (w : World) : option Pod.t :=
  match p with
  | nilptr => None
  | addr a => pods w !! a
  end.

(** [h.field]: a read through the receiver. *)
Definition readHandler {A} (h : ptr) (field : Handler.t -> A) : Exec A :=
  fun w =>
    match derefHandler h w with
    | Some v => (Return (field v), w)
    | None => (Panic nilDeref, w)
    end.

(** [pod.field]: a read through the argument. *)
Definition readPod {A} (pod : ptr) (field : Pod.t -> A) : Exec A :=
  fun w =>
    match derefPod pod w with
    | Some v => (Return (field v), w)
    | None => (Panic nilDeref, w)
    end.

(** ** connectSidecar *)

Section ConnectSidecar.

(** Two constants of package [connectinject] are declared in files that
    are not part of this development; [connectSidecar] is studied for any
    value of them.  (The test [TestConnectSidecar_SyncPeriodAnnotation]
    spells the annotation out as
    ["consul.hashicorp.com/connect-sync-period"].) *)
Variable volumeName : string.
Variable annotationSyncPeriod : string.

(** [func (h *Handler) connectSidecar(pod *corev1.Pod) corev1.Container] *)
Definition connectSidecar (h : ptr) (pod : ptr) : Exec Container.t :=
  let command := [
    "consul-k8s";
    "connect-sidecar";
    "-service-config"; "/consul/connect-inject/service.hcl"
  ] in
  authMethod ← readHandler h Handler.AuthMethod;
  let command :=
    if negb (String.eqb authMethod "")
    then (command ++ ["-token-file=/consul/connect-inject/acl-token"])%list
    else command in
  annotations ← readPod pod (fun p => ObjectMeta.Annotations (Pod.ObjectMeta p));
  let command :=
    match annotations !! annotationSyncPeriod with
    | Some period =>
        (command ++ ["-sync-period=" +:+ strings.TrimSpace period])%list
    | None => command
    end in
  image ← readHandler h Handler.ImageConsulK8s;
  mret {|
    Container.Name := "consul-connect-sidecar";
    Container.Image := image;
    Container.Env := [
      {| EnvVar.Name := "HOST_IP";
         EnvVar.Value := "";
         EnvVar.ValueFrom := Some {|
           EnvVarSource.FieldRef :=
             Some {| ObjectFieldSelector.FieldPath := "status.hostIP" |}
         |}
      |};
      (* Kubernetes will interpolate HOST_IP when creating this
         environment variable. *)
      {| EnvVar.Name := "CONSUL_HTTP_ADDR";
         EnvVar.Value := "$(HOST_IP):8500";
         EnvVar.ValueFrom := None
      |}
    ];
    Container.VolumeMounts := [
      {| VolumeMount.Name := volumeName;
         VolumeMount.MountPath := "/consul/connect-inject"
      |}
    ];
    Container.Command := command;
    Container.Args := []
  |}.

End ConnectSidecar.

(** ** The inputs of the tests of [connect_sidecar_test.go] *)

Module TestInputs.

Definition volumeName : string := "consul-connect-inject-data".
Definition annotationSyncPeriod : string :=
  "consul.hashicorp.com/connect-sync-period".

Definition handler (authMethod : string) : Handler.t := {|
  Handler.Log := "handler";
  Handler.ImageConsulK8s := "hashicorp/consul-k8s:9.9.9";
  Handler.AuthMethod := authMethod
|}.

Definition web : Container.t := {|
  Container.Name := "web";
  Container.Image := "";
  Container.Command := [];
  Container.Args := [];
  Container.Env := [];
  Container.VolumeMounts := []
|}.

Definition pod (annotations : gmap string string) : Pod.t := {|
  Pod.ObjectMeta := {|
    ObjectMeta.Name := "";
    ObjectMeta.Namespace := "";
    ObjectMeta.Labels := ∅;
    ObjectMeta.Annotations := annotations
  |};
  Pod.Spec := {| PodSpec.Containers := [web] |}
|}.

(** A heap with the handler of a test at address 1 and its pod at
    address 2. *)
Definition world (h : Handler.t) (p : Pod.t) : World := {|
  handlers := {[ 1%positive := h ]};
  pods := {[ 2%positive := p ]};
  logged := []
|}.

(** A second handler and a second pod, for comparison: they differ from
    [handler "auth-method"] and from [pod] in everything but the two fields
    of the handler and the one annotation that [connectSidecar] reads. *)
Definition otherHandler : Handler.t := {|
  Handler.Log := "other";
  Handler.ImageConsulK8s := "hashicorp/consul-k8s:9.9.9";
  Handler.AuthMethod := "auth-method"
|}.

Definition dbPod (period : string) : Pod.t := {|
  Pod.ObjectMeta := {|
    ObjectMeta.Name := "db";
    ObjectMeta.Namespace := "default";
    ObjectMeta.Labels := {[ "app" := "db" ]};
    ObjectMeta.Annotations :=
      {[ annotationSyncPeriod := period;
         "consul.hashicorp.com/connect-inject" := "true" ]}
  |};
  Pod.Spec := {| PodSpec.Containers := [] |}
|}.

End TestInputs.

(** ** The connect-sidecar command

    The command that the container above runs lives in
    [subcommand/connect-sidecar/command.go], which is not among the files of
    this development; its tests ([command_test.go]) are.  What follows is a
    model of the command from its specification: the service declarations,
    the registry it talks to, the engine that registers the declarations on
    a fixed cadence, and the controller that runs the engine until it is
    interrupted.  The error messages are the ones the tests look for. *)

Module SidecarCommand.

(** Modelled from the spec: the kind of a service declaration (section 3);
    [command.go], which declares what the command loads, is missing. *)
Inductive ServiceKind := KindNormal | KindMeshProxy.

(** Modelled from the spec: the [proxyConfig] of a mesh-proxy declaration
    (section 3); [command.go] is missing. *)
Record ProxyConfig := {
  destinationServiceName : string;
  destinationServiceId : string;
  localServicePort : Z
}.

(** Modelled from the spec: a service declaration (section 3);
    [command.go] is missing. *)
Record ServiceDeclaration := {
  id : string;
  name : string;
  port : Z;
  kind : ServiceKind;
  proxyConfig : option ProxyConfig
}.

(** Modelled from the spec: the two operations of the registry client,
    [RegisterService] and [DeregisterService] (section 6); the client, an
    external collaborator, is missing. *)
Inductive RegistryCall :=
  | RegisterService (d : ServiceDeclaration)
  | DeregisterService (i : string).

(** Modelled from the spec: the registry, which is missing (an external
    collaborator), as the services it holds and the calls its server has
    seen. *)
Record Registry := {
  services : gmap string ServiceDeclaration;
  observed : list RegistryCall
}.

(** Modelled from the spec: what a call that reaches the missing registry
    does to it. *)
Definition serve (c : RegistryCall) (r : Registry) : Registry := {|
  services :=
    match c with
    | RegisterService d => <[ id d := d ]> (services r)
    | DeregisterService i => delete i (services r)
    end;
  observed := (observed r ++ [c])%list
|}.

(** Modelled from the spec: the one-shot cancellation signal of sections
    3, 5 and 9 (the field of the [Command] struct is missing), a closable
    signal; closing it twice is the run-time error that the single-fire
    latch is there to prevent. *)
Inductive Signal := SignalOpen | SignalClosed.

(** Modelled from the spec: the message of the panic on a second close
    (the missing [command.go] holds the signal). *)
Definition doubleClose : string := "close of closed channel".

(** Modelled from the spec: closing the cancellation signal of the missing
    [command.go]. *)
Definition closeSignal (s : Signal) : outcome Signal :=
  match s with
  | SignalOpen => Return SignalClosed
  | SignalClosed => Panic doubleClose
  end.

(** Modelled from the spec: the states of the state machine of section
    4.1; [command.go] is missing. *)
Inductive Phase := Idle | Running | Stopping | Stopped.

(** Modelled from the spec: the [SyncState] of section 3 (the fields of
    the [Command] struct of [command.go] are not shown): the declarations,
    the sync interval, the cancellation signal with its latch, and the
    outcome of the last registration attempt. *)
Record SyncState := {
  declarations : list ServiceDeclaration;
  interval : Z;
  latch : bool;
  cancellation : Signal;
  lastOutcome : option bool
}.

(** Modelled from the spec: a command under way (the [Command] struct of
    the tests, whose declaration is missing): its [SyncState], its phase,
    the registry, and what an observer of the run can count: the registry
    calls made, the registration attempts, the teardown passes and the
    errors written to the UI. *)
Record Command := {
  sync : SyncState;
  phase : Phase;
  registry : Registry;
  issued : list RegistryCall;
  attempts : nat;
  teardowns : nat;
  ui : list string
}.

(** Modelled from the spec: updates of the fields of the missing [Command]
    and [SyncState]. *)
Definition setSync (f : SyncState -> SyncState) (c : Command) : Command := {|
  sync := f (sync c); phase := phase c; registry := registry c;
  issued := issued c; attempts := attempts c; teardowns := teardowns c;
  ui := ui c
|}.

Definition setPhase (p : Phase) (c : Command) : Command := {|
  sync := sync c; phase := p; registry := registry c;
  issued := issued c; attempts := attempts c; teardowns := teardowns c;
  ui := ui c
|}.

Definition fireLatch (s : Signal) (st : SyncState) : SyncState := {|
  declarations := declarations st; interval := interval st;
  latch := true; cancellation := s; lastOutcome := lastOutcome st
|}.

Definition recordOutcome (ok : bool) (st : SyncState) : SyncState := {|
  declarations := declarations st; interval := interval st;
  latch := latch st; cancellation := cancellation st; lastOutcome := Some ok
|}.

(** Modelled from the spec: the interrupt operation ([Command.interrupt],
    called by [stopCommand] of the tests; its body is missing): it closes
    the cancellation signal, guarded by the latch so that a second
    interrupt is a no-op. *)
Definition interrupt (c : Command) : outcome Command :=
  if latch (sync c) then Return c
  else
    match closeSignal (cancellation (sync c)) with
    | Return s => Return (setSync (fireLatch s) c)
    | Panic msg => Panic msg
    end.

(** Modelled from the spec: [k] calls of the missing [Command.interrupt],
    one after the other. *)
Fixpoint interrupts (k : nat) (c : Command) : outcome Command :=
  match k with
  | O => Return c
  | S k' =>
      match interrupt c with
      | Return c' => interrupts k' c'
      | Panic msg => Panic msg
      end
  end.

(** Modelled from the spec: one call of the missing registry client.  The
    call is made in any case; it reaches the registry, and succeeds, when
    the endpoint is up. *)
Definition callRegistry (up : bool) (call : RegistryCall) (c : Command)
    : bool * Command :=
  (up,
   {| sync := sync c; phase := phase c;
      registry := if up then serve call (registry c) else registry c;
      issued := (issued c ++ [call])%list;
      attempts := attempts c; teardowns := teardowns c; ui := ui c |}).

(** Modelled from the spec: the calls of one pass of the missing engine,
    in order; the pass succeeds when all of them do. *)
Fixpoint callAll (up : bool) (calls : list RegistryCall) (c : Command)
    : bool * Command :=
  match calls with
  | [] => (true, c)
  | call :: rest =>
      let '(ok, c) := callRegistry up call c in
      let '(oks, c) := callAll up rest c in
      (ok && oks, c)
  end.

(** Modelled from the spec: [runOnce] of section 4.1 (the body of the
    loop of the missing [command.go]), one registration attempt: both
    declarations, in order; the attempt as a whole fails if either call
    does. *)
Definition runOnce (up : bool) (c : Command) : Command :=
  let '(ok, c) :=
    callAll up (RegisterService <$> declarations (sync c)) c in
  {| sync := recordOutcome ok (sync c); phase := phase c;
     registry := registry c; issued := issued c;
     attempts := S (attempts c); teardowns := teardowns c; ui := ui c |}.

(** Modelled from the spec: what the missing [command.go] writes when the
    teardown pass fails (section 7: such a failure is logged). *)
Definition teardownFailed : string := "failed to deregister the services".

(** Modelled from the spec: [deregisterAll] of section 4.1 (missing with
    [command.go]), the teardown pass: one best-effort removal of both
    services, not retried; a failure is logged and nothing more. *)
Definition deregisterAll (up : bool) (c : Command) : bool * Command :=
  let '(ok, c) :=
    callAll up ((fun d => DeregisterService (id d)) <$> declarations (sync c)) c in
  (ok,
   {| sync := sync c; phase := phase c;
      registry := registry c; issued := issued c;
      attempts := attempts c; teardowns := S (teardowns c);
      ui := if ok then ui c else (ui c ++ [teardownFailed])%list |}).

(** Modelled from the spec: the command surface of section 6 (the flags
    of the missing [command.go], named after their use in the tests): a
    registry address, the path of the declarative input and the sync
    interval as a duration string. *)
Record Flags := {
  flagHTTPAddr : string;
  flagServiceConfig : string;
  flagSyncPeriod : string
}.

(** Modelled from the spec: what the file system holds at the path that
    the missing [Run] reads. *)
Inductive FileStatus :=
  | FileNotFound
  | FileUnreadable
  | FileContents (contents : string).

(** Modelled from the spec: what the service-spec loader, a missing
    external collaborator, makes of the contents of a file. *)
Inductive LoadResult :=
  | LoadError (msg : string)
  | Loaded (svcs : list ServiceDeclaration).

(** Modelled from the spec: the configuration errors of section 7, as the
    missing [Run] reports them. *)
Inductive ConfigError :=
  | ServiceConfigNotSet
  | SyncPeriodInvalid (period : string)
  | ServiceConfigNotFound (path : string)
  | ServiceConfigUnreadable (path : string)
  | ServiceConfigInvalid (msg : string)
  | WrongServiceCount (n : nat).

(** The double quote of Go's [%q]. *)
Definition quote : string := String "034"%char "".

(** Modelled from the spec: the message of a configuration error of the
    missing [Run]; the texts are those that [command_test.go] expects on
    the UI. *)
Definition describe (e : ConfigError) : string :=
  match e with
  | ServiceConfigNotSet => "-service-config must be set"
  | SyncPeriodInvalid period =>
      "-sync-period is invalid: time: invalid duration " +:+ period
  | ServiceConfigNotFound path =>
      "-service-config file " +:+ quote +:+ path +:+ quote +:+ " not found"
  | ServiceConfigUnreadable path =>
      "-service-config file " +:+ quote +:+ path +:+ quote +:+ " could not be read"
  | ServiceConfigInvalid msg => msg
  | WrongServiceCount _ => "expected 2 services to be defined"
  end.

(** Modelled from the spec: one round of the timer loop of the missing
    [Run] as the world presents it: whether the registry endpoint is up
    during the round, and how many times the interrupt is fired during the
    wait that ends it. *)
Record Round := {
  up : bool;
  fired : nat
}.

(** Modelled from the spec: the world a run of the missing [Run] meets:
    the file system, the registry at the start, and the rounds to come. *)
Record Env := {
  files : string -> FileStatus;
  registry0 : Registry;
  rounds : list Round
}.

(** Modelled from the spec: how a run of the missing [Run] stands at the
    end of the rounds given: it has exited with a status, it is still in
    its loop, or it has crashed. *)
Inductive Termination :=
  | Exited (status : Z)
  | StillRunning
  | Crashed (msg : string).

(** Modelled from the spec: the missing [Command] before it starts. *)
Definition idle (r : Registry) : Command := {|
  sync := {| declarations := []; interval := 0; latch := false;
             cancellation := SignalOpen; lastOutcome := None |};
  phase := Idle; registry := r; issued := [];
  attempts := 0; teardowns := 0; ui := []
|}.

(** Modelled from the spec: the missing [Command] from Idle to Running,
    with the loaded declarations and the interval. *)
Definition start (svcs : list ServiceDeclaration) (d : Z) (r : Registry)
    : Command := {|
  sync := {| declarations := svcs; interval := d; latch := false;
             cancellation := SignalOpen; lastOutcome := None |};
  phase := Running; registry := r; issued := [];
  attempts := 0; teardowns := 0; ui := []
|}.

(** Modelled from the spec: a fatal configuration error of the missing
    [Run]: the message goes to the UI. *)
Definition fail (e : ConfigError) (c : Command) : Command := {|
  sync := sync c; phase := phase c; registry := registry c;
  issued := issued c; attempts := attempts c; teardowns := teardowns c;
  ui := (ui c ++ [describe e])%list
|}.

(** Modelled from the spec: the timer loop of the lifecycle controller
    (section 4.2; the loop of the missing [Run]): an attempt at once, then
    the wait for the interval or the interrupt, whichever is first; on
    interrupt, one teardown pass and the terminal status zero, whether the
    teardown went through or not (sections 4.2 (a), 6 and 7: a failure of
    the teardown is logged and does not fail the exit). *)
Fixpoint loop (rs : list Round) (c : Command) : Termination * Command :=
  match rs with
  | [] => (StillRunning, c)
  | r :: rest =>
      let c := runOnce (up r) c in
      match interrupts (fired r) c with
      | Panic msg => (Crashed msg, c)
      | Return c =>
          match cancellation (sync c) with
          | SignalOpen => loop rest c
          | SignalClosed =>
              let '(_, c) := deregisterAll (up r) (setPhase Stopping c) in
              (Exited 0, setPhase Stopped c)
          end
      end
  end.

Section Run.

(** The parser of durations ([time.ParseDuration]) and the loader of
    service declarations are external collaborators. *)
Variable parseDuration : string -> option Z.
Variable loadServices : string -> LoadResult.

(** Modelled from the spec: the configuration step of [Run]
    ([command.go] is not shown): the flags are validated, then the file
    is read and loaded, then the declarations are counted.  The order of
    the checks is the one the cases of [TestRun_FlagValidation]
    need. *)
Definition configure (flags : Flags) (fs : string -> FileStatus)
    : ConfigError + (list ServiceDeclaration * Z) :=
  if String.eqb (flagServiceConfig flags) "" then inl ServiceConfigNotSet
  else
    match parseDuration (flagSyncPeriod flags) with
    | None => inl (SyncPeriodInvalid (flagSyncPeriod flags))
    | Some d =>
        match fs (flagServiceConfig flags) with
        | FileNotFound => inl (ServiceConfigNotFound (flagServiceConfig flags))
        | FileUnreadable => inl (ServiceConfigUnreadable (flagServiceConfig flags))
        | FileContents contents =>
            match loadServices contents with
            | LoadError msg => inl (ServiceConfigInvalid msg)
            | Loaded svcs =>
                if Nat.eqb (length svcs) 2 then inr (svcs, d)
                else inl (WrongServiceCount (length svcs))
            end
        end
    end.

(** Modelled from the spec: [Command.Run] ([command.go] is not shown):
    a configuration error is fatal, before the loop and before any
    registry call; otherwise the loop runs until it is interrupted. *)
Definition Run (flags : Flags) (env : Env) : Termination * Command :=
  match configure flags (files env) with
  | inl e => (Exited 1, fail e (idle (registry0 env)))
  | inr (svcs, d) => loop (rounds env) (start svcs d (registry0 env))
  end.

End Run.

(** Modelled from the spec: in the missing [Command], the latch guards
    the signal: it has fired exactly when the signal is closed. *)
Definition guarded (c : Command) : bool :=
  Bool.eqb (latch (sync c))
           match cancellation (sync c) with
           | SignalClosed => true
           | SignalOpen => false
           end.

(** Modelled from the spec: the states that the missing [Command] goes
    through in a run. *)
Inductive reachable : Command -> Prop :=
  | reachable_start svcs d r : reachable (start svcs d r)
  | reachable_runOnce b c : reachable c -> reachable (runOnce b c)
  | reachable_interrupt c c' :
      reachable c -> interrupt c = Return c' -> reachable c'
  | reachable_setPhase p c : reachable c -> reachable (setPhase p c)
  | reachable_deregisterAll b c :
      reachable c -> reachable (snd (deregisterAll b c)).

(** **** The inputs of [command_test.go] *)

Definition service : ServiceDeclaration := {|
  id := "service-id"; name := "service"; port := 80;
  kind := KindNormal; proxyConfig := None
|}.

Definition sidecarProxy : ServiceDeclaration := {|
  id := "service-id-sidecar-proxy"; name := "service-sidecar-proxy";
  port := 2000; kind := KindMeshProxy;
  proxyConfig := Some {|
    destinationServiceName := "service";
    destinationServiceId := "service-id";
    localServicePort := 80
  |}
|}.

(** A loader, a duration parser and a file system that know the inputs
    of the tests; the contents of the file of two declarations
    ([servicesRegistration]) are abridged. *)
Definition testLoader (contents : string) : LoadResult :=
  if String.eqb contents "" then Loaded []
  else if String.eqb contents "services { ... } services { ... }"
       then Loaded [service; sidecarProxy]
  else LoadError "At 1:1: illegal char".

Definition testParseDuration (s : string) : option Z :=
  if String.eqb s "100ms" then Some 100000000
  else if String.eqb s "10s" then Some 10000000000
  else None.

Definition testFiles (path : string) : FileStatus :=
  if String.eqb path "/tmp/empty/svc.hcl" then FileContents ""
  else if String.eqb path "/tmp/svc.hcl"
       then FileContents "services { ... } services { ... }"
  else if String.eqb path "/root/secret.hcl" then FileUnreadable
  else FileNotFound.

Definition emptyRegistry : Registry := {| services := ∅; observed := [] |}.

End SidecarCommand.

(** ** Words for the value of an annotation

    A string is white space when it is a row of encodings of white-space
    runes (the empty string is); it is bare when it is empty or neither its
    first nor its last rune is a white-space rune. *)

Definition whiteSpace (s : string) : Prop :=
  spaces (list_ascii_of_string s).

Definition bare (s : string) : Prop :=
  s = ""
  \/ (unicode.IsSpace
        (fst (utf8.DecodeRuneInString (list_ascii_of_string s))) = false
      /\ unicode.IsSpace
           (fst (utf8.DecodeLastRuneInString (list_ascii_of_string s))) = false).

(** ** The port of [TestRun_ServicesRegistration_ConsulDown]

    [randomPort := rand.Int()%10000 + 10000] of [command_test.go], as a
    function of what [rand.Int] returns, a non-negative [int] of 64 bits;
    Go's [%] truncates, as [Z.rem] does, and the sum wraps around at 64
    bits. *)

Module CommandTest.

Definition wrap64 (z : Z) : Z := (z + 2 ^ 63) mod 2 ^ 64 - 2 ^ 63.

Definition randomPort (r : Z) : Z := wrap64 (Z.rem r 10000 + 10000).

End CommandTest.

(** ** Properties of [strings.TrimSpace]

    What [TrimSpace] returns is its argument without the white space at its
    ends, and on an argument in ASCII it is the argument [trimmed]. *)

Section TrimSpaceFacts.

Import utf8 strings.

(** *** The decoder *)

Ltac split_ifs :=
  repeat match goal with
  | |- context [if ?b then _ else _] =>
      match b with
      | (?x <? ?y) => destruct (Z.ltb_spec x y)
      | (?x <=? ?y) => destruct (Z.leb_spec x y)
      | (?x =? ?y) => destruct (Z.eqb_spec x y)
      | _ => destruct b eqn:?
      end
  end.

Ltac split_ifs_in H :=
  repeat match type of H with
  | context [if ?b then _ else _] =>
      match b with
      | (?x <? ?y) => destruct (Z.ltb_spec x y)
      | (?x <=? ?y) => destruct (Z.leb_spec x y)
      | (?x =? ?y) => destruct (Z.eqb_spec x y)
      | orb (?x <? ?y) (?z <? ?w) =>
          destruct (Z.ltb_spec x y); destruct (Z.ltb_spec z w); cbn [orb] in H
      end
  end.

Ltac split_ifs_lia :=
  repeat match goal with
  | |- context [if ?b then _ else _] =>
      match b with
      | (?x <? ?y) => destruct (Z.ltb_spec x y)
      | (?x <=? ?y) => destruct (Z.leb_spec x y)
      | (?x =? ?y) => destruct (Z.eqb_spec x y)
      | orb (?x <? ?y) (?z <? ?w) =>
          destruct (Z.ltb_spec x y); destruct (Z.ltb_spec z w); cbn [orb]
      end; try lia
  end.

(** The information byte of a first byte, by cases. *)
Lemma first_cases (b : Z) :
  (b < 0x80 /\ first b = as_)
  \/ first b = xx
  \/ (0xC2 <= b /\ first b = s1)
  \/ (0xC2 <= b /\ first b = s2)
  \/ (0xC2 <= b /\ first b = s3)
  \/ (0xC2 <= b /\ first b = s4)
  \/ (0xC2 <= b /\ first b = s5)
  \/ (0xC2 <= b /\ first b = s6)
  \/ (0xC2 <= b /\ first b = s7).
Proof. unfold first. split_ifs; auto 20 with zarith. Qed.

Ltac info_byte x :=
  let le := eval vm_compute in (as_ <=? x) in
  let tb := eval vm_compute in (Z.testbit x 0) in
  let sz := eval vm_compute in (Z.land x 7) in
  let lo := eval vm_compute in (fst (acceptRanges (Z.shiftr x 4))) in
  let hi := eval vm_compute in (snd (acceptRanges (Z.shiftr x 4))) in
  change (as_ <=? x) with le in *;
  change (Z.testbit x 0) with tb in *;
  change (Z.land x 7) with sz in *;
  change (fst (acceptRanges (Z.shiftr x 4))) with lo in *;
  change (snd (acceptRanges (Z.shiftr x 4))) with hi in *;
  cbv beta iota in *.

(** Case analysis on the first byte [b] of a decoding that stands in the
    goal and in the hypotheses. *)
Ltac by_first_byte b :=
  let E := fresh "E" in
  let R := fresh "R" in
  destruct (first_cases b)
    as [[R E]|[E|[[R E]|[[R E]|[[R E]|[[R E]|[[R E]|[[R E]|[R E]]]]]]]]];
  rewrite ?E in *;
  [ info_byte as_ | info_byte xx | info_byte s1 | info_byte s2 | info_byte s3
  | info_byte s4 | info_byte s5 | info_byte s6 | info_byte s7 ];
  unfold locb, hicb in *.

Lemma len_nonneg (s : list ascii) : 0 <= len s.
Proof. unfold len. lia. Qed.

Lemma len_pos (s : list ascii) : s <> [] -> 1 <= len s.
Proof. destruct s; [congruence|]. unfold len. cbn [length]. lia. Qed.

Lemma DecodeRuneInString_size (s : list ascii) (r n : Z) :
  DecodeRuneInString s = (r, n) ->
  (s = [] /\ r = RuneError /\ n = 0) \/ (1 <= n <= 4 /\ n <= len s).
Proof.
  unfold DecodeRuneInString.
  destruct (Z.ltb_spec (len s) 1) as [Hn|Hn].
  { intros [= <- <-]. left. split; [|auto].
    destruct s; [reflexivity|]. unfold len in Hn. cbn in Hn. lia. }
  intros H. right.
  by_first_byte (at_ s 0); split_ifs_in H; injection H as <- <-; lia.
Qed.

(** A decoding other than [(RuneError, 1)] starts with an ASCII byte or a
    leading byte, and with a leading byte when it is longer than a byte. *)
Lemma DecodeRuneInString_first (s : list ascii) (r n : Z) :
  DecodeRuneInString s = (r, n) ->
  2 <= n \/ r <> RuneError ->
  (at_ s 0 < 0x80 /\ n = 1 /\ r = at_ s 0) \/ (0xC2 <= at_ s 0 /\ 2 <= n).
Proof.
  unfold DecodeRuneInString.
  destruct (Z.ltb_spec (len s) 1) as [Hn|Hn].
  { intros [= <- <-] [?|?]; [lia|congruence]. }
  intros H Hv.
  by_first_byte (at_ s 0); split_ifs_in H; injection H as <- <-;
    destruct Hv as [Hv|Hv]; try lia; try congruence; auto.
Qed.

(** Such a decoding reads its own bytes only. *)
Lemma DecodeRuneInString_prefix (s s' : list ascii) (r n : Z) :
  DecodeRuneInString s = (r, n) ->
  2 <= n \/ r <> RuneError ->
  n <= len s' ->
  (forall k, 0 <= k < n -> at_ s' k = at_ s k) ->
  DecodeRuneInString s' = (r, n).
Proof.
  intros Hdec Hv Hlen Hat.
  destruct (DecodeRuneInString_size s r n Hdec) as [(_ & -> & ->)|[Hn Hn']];
    [destruct Hv; [lia|congruence]|].
  revert Hdec. unfold DecodeRuneInString.
  rewrite (Hat 0) by lia.
  destruct (Z.ltb_spec (len s) 1); [lia|].
  destruct (Z.ltb_spec (len s') 1); [lia|].
  intros Hdec.
  by_first_byte (at_ s 0); split_ifs_in Hdec; injection Hdec as <- <-;
    try (destruct Hv; [lia|congruence]).
  all: try rewrite (Hat 1) by lia.
  all: try rewrite (Hat 2) by lia.
  all: try rewrite (Hat 3) by lia.
  all: split_ifs_lia; reflexivity.
Qed.

(** A byte at the front is a rune of its own when no continuation byte
    follows it. *)
Lemma DecodeRuneInString_alone (s : list ascii) :
  1 <= len s ->
  len s = 1 \/ at_ s 1 < 0x80 \/ 0xBF < at_ s 1 ->
  snd (DecodeRuneInString s) = 1.
Proof.
  intros Hn Hnext. unfold DecodeRuneInString.
  destruct (Z.ltb_spec (len s) 1); [lia|].
  by_first_byte (at_ s 0); split_ifs_lia; reflexivity.
Qed.

(** *** Bytes of pieces of a string *)

Lemma at_drop (s : list ascii) (k : nat) (j : Z) :
  0 <= j -> at_ (drop k s) j = at_ s (Z.of_nat k + j).
Proof.
  intros Hj. unfold at_. rewrite lookup_drop.
  replace (Z.to_nat (Z.of_nat k + j)) with (k + Z.to_nat j)%nat by lia.
  reflexivity.
Qed.

Lemma at_take (s : list ascii) (m : nat) (j : Z) :
  0 <= j < Z.of_nat m -> at_ (take m s) j = at_ s j.
Proof.
  intros Hj. unfold at_. rewrite lookup_take_lt by lia. reflexivity.
Qed.

Lemma at_app_l (s t : list ascii) (j : Z) :
  0 <= j < len s -> at_ (s ++ t)%list j = at_ s j.
Proof.
  unfold len. intros Hj. unfold at_. rewrite lookup_app_l by lia. reflexivity.
Qed.

Lemma len_app (s t : list ascii) : len (s ++ t)%list = len s + len t.
Proof. unfold len. rewrite length_app. lia. Qed.

Lemma len_take (s : list ascii) (m : nat) :
  (m <= length s)%nat -> len (take m s) = Z.of_nat m.
Proof. intros. unfold len. rewrite length_take. lia. Qed.

Lemma len_drop (s : list ascii) (m : nat) :
  len (drop m s) = len s - Z.of_nat (m `min` length s).
Proof. unfold len. rewrite length_drop. lia. Qed.

Lemma slice_drop (s : list ascii) (i : Z) :
  0 <= i -> slice s i (len s) = drop (Z.to_nat i) s.
Proof.
  intros Hi. unfold slice, len. apply take_ge. rewrite length_drop. lia.
Qed.

Lemma slice_take (s : list ascii) (j : Z) :
  slice s 0 j = take (Z.to_nat j) s.
Proof. unfold slice. rewrite Z.sub_0_r. reflexivity. Qed.

Lemma scanStart_le (fuel : nat) (s : list ascii) (lim start : Z) :
  scanStart fuel s lim start <= start.
Proof.
  revert start. induction fuel as [|fuel IH]; intros start; cbn [scanStart]; [lia|].
  destruct (start <? lim); [lia|]. destruct (RuneStart _); [lia|].
  specialize (IH (start - 1)). lia.
Qed.

(** The last rune, by cases: an ASCII byte; an error of one byte; or what
    [DecodeRuneInString] reads from the last [n] bytes, all of them. *)
Lemma DecodeLastRuneInString_cases (s : list ascii) (r n : Z) :
  s <> [] ->
  DecodeLastRuneInString s = (r, n) ->
  1 <= n <= len s
  /\ ((n = 1 /\ r = at_ s (len s - 1) /\ r < RuneSelf)
      \/ (n = 1 /\ r = RuneError /\ RuneSelf <= at_ s (len s - 1))
      \/ (RuneSelf <= at_ s (len s - 1)
          /\ DecodeRuneInString (drop (Z.to_nat (len s - n)) s) = (r, n))).
Proof.
  intros Hs. pose proof (len_pos s Hs) as Hlen.
  unfold DecodeLastRuneInString.
  destruct (Z.eqb_spec (len s) 0); [lia|].
  destruct (Z.ltb_spec (at_ s (len s - 1)) RuneSelf) as [Ha|Ha].
  { intros [= <- <-]. split; [lia|]. left. auto. }
  set (lim := if len s - UTFMax <? 0 then 0 else len s - UTFMax).
  pose proof (scanStart_le (Z.to_nat UTFMax) s lim (len s - 1 - 1)) as Hscan.
  set (start0 := scanStart (Z.to_nat UTFMax) s lim (len s - 1 - 1)) in *.
  set (start := if start0 <? 0 then 0 else start0).
  assert (Hstart : 0 <= start <= len s - 1).
  { subst start. destruct (Z.ltb_spec start0 0); lia. }
  assert (Hslice : slice s start (len s) = drop (Z.to_nat start) s)
    by (apply slice_drop; lia).
  rewrite Hslice.
  destruct (DecodeRuneInString (drop (Z.to_nat start) s)) as [r' size] eqn:Hdec.
  destruct (Z.eqb_spec (start + size) (len s)) as [He|He]; cbn [negb].
  - intros [= <- <-].
    destruct (DecodeRuneInString_size _ _ _ Hdec) as [(_ & _ & ->)|[Hsz _]]; [lia|].
    split; [lia|]. right. right. split; [exact Ha|].
    replace (len s - size) with start by lia. exact Hdec.
  - intros [= <- <-]. split; [lia|]. right. left. auto.
Qed.

Lemma IsSpace_RuneError (r : Z) : unicode.IsSpace r = true -> r <> RuneError.
Proof. intros H ->. vm_compute in H. discriminate. Qed.

Lemma spaces_app (a b : list ascii) : spaces a -> spaces b -> spaces (a ++ b)%list.
Proof.
  induction 1 as [|enc rest r Hdec Hsp _ IH]; intros Hb; [exact Hb|].
  rewrite <- app_assoc. exact (spaces_cons enc _ r Hdec Hsp (IH Hb)).
Qed.

Lemma spaces_one (enc : list ascii) (r : Z) :
  DecodeRuneInString enc = (r, len enc) -> unicode.IsSpace r = true -> spaces enc.
Proof.
  intros Hdec Hsp. rewrite <- (app_nil_r enc).
  exact (spaces_cons enc [] r Hdec Hsp spaces_nil).
Qed.

(** White space does not start with a continuation byte. *)
Lemma spaces_start (t : list ascii) :
  spaces t -> t = [] \/ at_ t 0 < 0x80 \/ 0xBF < at_ t 0.
Proof.
  intros [|enc rest r Hdec Hsp _]; [left; reflexivity|]. right.
  pose proof (IsSpace_RuneError r Hsp) as Hr.
  destruct (DecodeRuneInString_size enc r _ Hdec) as [(_ & ? & _)|[Hn _]];
    [congruence|].
  rewrite at_app_l by lia.
  destruct (DecodeRuneInString_first enc r _ Hdec) as [(? & _)|(? & _)];
    [right; exact Hr|lia|lia].
Qed.

(** The rune read at the front, cut out of the string. *)
Lemma DecodeRuneInString_take (s : list ascii) (r n : Z) :
  DecodeRuneInString s = (r, n) ->
  2 <= n \/ r <> RuneError ->
  DecodeRuneInString (take (Z.to_nat n) s) = (r, len (take (Z.to_nat n) s))
  /\ len (take (Z.to_nat n) s) = n.
Proof.
  intros Hdec Hv.
  destruct (DecodeRuneInString_size s r n Hdec) as [(_ & -> & ->)|[Hn Hn']];
    [destruct Hv; [lia|congruence]|].
  assert (Hl : len (take (Z.to_nat n) s) = n).
  { unfold len in *. rewrite length_take. lia. }
  split; [|exact Hl]. rewrite Hl.
  apply (DecodeRuneInString_prefix s _ r n Hdec Hv); [lia|].
  intros k Hk. apply at_take. lia.
Qed.

(** *** The forward scan *)

Lemma indexFunc_loop_spec (fuel : nat) (s : list ascii) (i : nat) :
  (i <= length s)%nat ->
  (length s <= i + fuel)%nat ->
  spaces (take i s) ->
  let k := indexFunc_loop fuel s (Z.of_nat i) unicode.IsSpace false in
  (k = -1 /\ spaces s)
  \/ (exists j : nat,
        k = Z.of_nat j /\ (j < length s)%nat /\ spaces (take j s)
        /\ unicode.IsSpace (fst (DecodeRuneInString (drop j s))) = false).
Proof.
  revert i. induction fuel as [|fuel IH]; intros i Hi Hfuel Hsp; cbn zeta.
  - cbn [indexFunc_loop]. left. split; [reflexivity|].
    rewrite take_ge in Hsp by lia. exact Hsp.
  - cbn [indexFunc_loop].
    destruct (Z.leb_spec (len s) (Z.of_nat i)) as [Hlen|Hlen]; unfold len in Hlen.
    { left. split; [reflexivity|]. rewrite take_ge in Hsp by lia. exact Hsp. }
    rewrite slice_drop, Nat2Z.id by lia.
    destruct (DecodeRuneInString (drop i s)) as [r n] eqn:Hdec.
    destruct (unicode.IsSpace r) eqn:Hr; cbn [Bool.eqb].
    + pose proof (IsSpace_RuneError r Hr) as Hne.
      destruct (DecodeRuneInString_size _ _ _ Hdec) as [(_ & ? & _)|[Hn Hn']];
        [congruence|].
      rewrite len_drop in Hn'. unfold len in Hn'.
      destruct (DecodeRuneInString_take _ _ _ Hdec (or_intror Hne)) as [Hcut Hcutlen].
      replace (Z.of_nat i + n) with (Z.of_nat (i + Z.to_nat n)) by lia.
      apply IH; [lia|lia|].
      rewrite <- take_take_drop. apply spaces_app; [exact Hsp|].
      exact (spaces_one _ r Hcut Hr).
    + right. exists i. rewrite Hdec. cbn [fst]. auto with lia.
Qed.

Lemma TrimLeftFunc_spec (s : list ascii) :
  exists l : list ascii,
    s = (l ++ TrimLeftFunc s unicode.IsSpace)%list
    /\ spaces l
    /\ (TrimLeftFunc s unicode.IsSpace = []
        \/ unicode.IsSpace
             (fst (DecodeRuneInString (TrimLeftFunc s unicode.IsSpace))) = false).
Proof.
  unfold TrimLeftFunc, indexFunc.
  pose proof (indexFunc_loop_spec (length s) s 0) as Hk.
  cbn zeta in Hk. change (Z.of_nat 0) with 0 in Hk.
  destruct Hk as [[-> Hsp]|(j & -> & Hj & Hsp & Hr)]; [lia|lia|constructor| |].
  - exists s. cbn. rewrite app_nil_r. auto.
  - destruct (Z.eqb_spec (Z.of_nat j) (-1)); [lia|].
    rewrite slice_drop, Nat2Z.id by lia.
    exists (take j s). rewrite take_drop. auto.
Qed.

Lemma DecodeRuneInString_self (s : list ascii) :
  1 <= len s -> at_ s 0 < RuneSelf -> DecodeRuneInString s = (at_ s 0, 1).
Proof.
  intros Hn Ha. unfold DecodeRuneInString.
  destruct (Z.ltb_spec (len s) 1); [lia|].
  assert (E : first (at_ s 0) = as_).
  { unfold first, RuneSelf in *.
    destruct (Z.ltb_spec (at_ s 0) 128); [reflexivity|lia]. }
  rewrite E. reflexivity.
Qed.

(** The last rune is what [DecodeRuneInString] reads from the last [n]
    bytes, or it is an error of one byte. *)
Lemma DecodeLastRuneInString_last (s : list ascii) (r n : Z) :
  s <> [] ->
  DecodeLastRuneInString s = (r, n) ->
  1 <= n <= len s
  /\ (DecodeRuneInString (drop (Z.to_nat (len s - n)) s) = (r, n)
      \/ (n = 1 /\ r = RuneError)).
Proof.
  intros Hs Hdec.
  destruct (DecodeLastRuneInString_cases s r n Hs Hdec)
    as [Hn [(-> & -> & Ha)|[(-> & -> & _)|[_ Hd]]]]; split; auto.
  left. pose proof (len_pos s Hs) as Hlen.
  assert (E : at_ (drop (Z.to_nat (len s - 1)) s) 0 = at_ s (len s - 1)).
  { rewrite at_drop by lia. f_equal. lia. }
  rewrite <- E. apply DecodeRuneInString_self; [|rewrite E; exact Ha].
  rewrite len_drop. unfold len in *. lia.
Qed.

(** *** The backward scan *)

Lemma lastIndexFunc_loop_spec (fuel : nat) (s : list ascii) (i : nat) :
  (i <= length s)%nat ->
  (i <= fuel)%nat ->
  spaces (drop i s) ->
  let k := lastIndexFunc_loop fuel s (Z.of_nat i) unicode.IsSpace false in
  (k = -1 /\ spaces s)
  \/ (exists (j : nat) (r n : Z),
        (0 < j <= length s)%nat /\ spaces (drop j s)
        /\ DecodeLastRuneInString (take j s) = (r, n)
        /\ unicode.IsSpace r = false
        /\ k = Z.of_nat j - n).
Proof.
  revert i. induction fuel as [|fuel IH]; intros i Hi Hfuel Hsp; cbn zeta.
  - cbn [lastIndexFunc_loop]. left. split; [reflexivity|].
    replace i with O in Hsp by lia. exact Hsp.
  - cbn [lastIndexFunc_loop].
    destruct (Z.leb_spec (Z.of_nat i) 0) as [H0|H0].
    { left. split; [reflexivity|]. replace i with O in Hsp by lia. exact Hsp. }
    rewrite slice_take, Nat2Z.id.
    destruct (DecodeLastRuneInString (take i s)) as [r n] eqn:Hdec.
    destruct (unicode.IsSpace r) eqn:Hr; cbn [Bool.eqb].
    + pose proof (IsSpace_RuneError r Hr) as Hne.
      assert (Hne0 : take i s <> []).
      { intros E. apply (f_equal length) in E. rewrite length_take in E.
        cbn in E. lia. }
      destruct (DecodeLastRuneInString_last _ _ _ Hne0 Hdec) as [Hn [Hd|[_ ?]]];
        [|congruence].
      rewrite len_take in Hn, Hd by lia.
      replace (Z.of_nat i - n) with (Z.of_nat (i - Z.to_nat n)) in * by lia.
      rewrite Nat2Z.id in Hd.
      apply IH; [lia|lia|].
      assert (E : drop (i - Z.to_nat n) (take i s)
                  = take (Z.to_nat n) (drop (i - Z.to_nat n) s)).
      { rewrite take_drop_commute. do 2 f_equal. lia. }
      rewrite <- (take_drop (Z.to_nat n) (drop (i - Z.to_nat n) s)).
      rewrite drop_drop. replace (i - Z.to_nat n + Z.to_nat n)%nat with i by lia.
      apply spaces_app; [|exact Hsp].
      rewrite <- E. apply (spaces_one _ r); [|exact Hr].
      rewrite Hd. f_equal. unfold len. rewrite length_drop, length_take. lia.
    + right. exists i, r, n. auto with lia.
Qed.

Lemma TrimRightFunc_spec (s : list ascii) :
  exists t : list ascii,
    s = (TrimRightFunc s unicode.IsSpace ++ t)%list
    /\ spaces t
    /\ (TrimRightFunc s unicode.IsSpace = []
        \/ unicode.IsSpace
             (fst (DecodeLastRuneInString (TrimRightFunc s unicode.IsSpace)))
           = false).
Proof.
  unfold TrimRightFunc, lastIndexFunc, len.
  pose proof (lastIndexFunc_loop_spec (length s) s (length s)) as Hk.
  cbn zeta in Hk.
  destruct Hk as [[-> Hsp]|(j & r & n & Hj & Hsp & Hdec & Hr & ->)];
    [lia|lia|rewrite drop_all; constructor| |].
  - exists s. cbn. auto.
  - assert (Hne0 : take j s <> []).
    { intros E. apply (f_equal length) in E. rewrite length_take in E.
      cbn in E. lia. }
    destruct (DecodeLastRuneInString_last _ _ _ Hne0 Hdec) as [Hn Hcases].
    rewrite len_take in Hn, Hcases by lia.
    replace (Z.of_nat j - n) with (Z.of_nat (j - Z.to_nat n)) in * by lia.
    rewrite Nat2Z.id in Hcases.
    set (k := (j - Z.to_nat n)%nat) in *.
    assert (Hlast : drop k s = (drop k (take j s) ++ drop j s)%list).
    { rewrite <- (take_drop (Z.to_nat n) (drop k s)), drop_drop.
      replace (k + Z.to_nat n)%nat with j by lia. f_equal.
      rewrite take_drop_commute. do 2 f_equal. lia. }
    assert (Hat : at_ (drop k s) 0 = at_ s (Z.of_nat k)).
    { rewrite at_drop by lia. f_equal. lia. }
    assert (Hwid :
      (if (0 <=? Z.of_nat k) && (RuneSelf <=? at_ s (Z.of_nat k))
       then Z.of_nat k
            + snd (DecodeRuneInString
                     (slice s (Z.of_nat k) (Z.of_nat (length s))))
       else Z.of_nat k + 1) = Z.of_nat j).
    { rewrite (proj2 (Z.leb_le 0 (Z.of_nat k))) by lia. cbn [andb].
      change (Z.of_nat (length s)) with (len s).
      rewrite slice_drop, Nat2Z.id by lia.
      assert (Hchunk : len (drop k (take j s)) = n).
      { unfold len. rewrite length_drop, length_take. lia. }
      assert (Halone : n = 1 -> RuneSelf <= at_ s (Z.of_nat k) ->
                       snd (DecodeRuneInString (drop k s)) = 1).
      { intros Hn1 _. apply DecodeRuneInString_alone.
        - rewrite len_drop. unfold len. lia.
        - destruct (spaces_start _ Hsp) as [E|Hc].
          + left. rewrite Hlast, E, app_nil_r. lia.
          + right. rewrite Hlast.
            assert (E1 : at_ (drop k (take j s) ++ drop j s)%list 1
                         = at_ (drop j s) 0).
            { unfold at_. rewrite lookup_app_r;
                rewrite length_drop, length_take; [|lia].
              replace (Z.to_nat 1 - (j `min` length s - k))%nat with (Z.to_nat 0)
                by (subst k; lia).
              reflexivity. }
            rewrite E1. exact Hc. }
      destruct (Z.leb_spec RuneSelf (at_ s (Z.of_nat k))) as [Ha|Ha].
      - destruct Hcases as [Hd|[Hn1 _]]; [|rewrite Halone by assumption; lia].
        destruct (Z.le_gt_cases 2 n) as [H2|H2];
          [|rewrite Halone by (assumption || lia); lia].
        rewrite (DecodeRuneInString_prefix _ (drop k s) r n Hd (or_introl H2)).
        + cbn [snd]. lia.
        + rewrite len_drop. unfold len. lia.
        + intros i Hi. rewrite Hlast, at_app_l by lia. reflexivity.
      - destruct Hcases as [Hd|[Hn1 _]]; [|lia].
        assert (E0 : at_ (drop k (take j s)) 0 = at_ s (Z.of_nat k)).
        { rewrite <- Hat, Hlast, at_app_l by lia. reflexivity. }
        rewrite DecodeRuneInString_self in Hd by (rewrite ?E0; lia).
        injection Hd as _ <-. lia. }
    rewrite Hwid, slice_take, Nat2Z.id.
    exists (drop j s). rewrite take_drop, Hdec. auto.
Qed.

(** What [TrimFunc] returns for [unicode.IsSpace]: the string without the
    white space at its ends. *)
Lemma TrimFunc_spec (s : list ascii) :
  exists l t : list ascii,
    s = (l ++ TrimFunc s unicode.IsSpace ++ t)%list
    /\ spaces l /\ spaces t
    /\ (TrimFunc s unicode.IsSpace = []
        \/ (unicode.IsSpace
              (fst (DecodeRuneInString (TrimFunc s unicode.IsSpace))) = false
            /\ unicode.IsSpace
                 (fst (DecodeLastRuneInString (TrimFunc s unicode.IsSpace)))
               = false)).
Proof.
  unfold TrimFunc.
  destruct (TrimLeftFunc_spec s) as (l & El & Hl & Hfront).
  destruct (TrimRightFunc_spec (TrimLeftFunc s unicode.IsSpace))
    as (t & Et & Ht & Hback).
  set (v0 := TrimLeftFunc s unicode.IsSpace) in *.
  set (v := TrimRightFunc v0 unicode.IsSpace) in *.
  exists l, t. split; [rewrite <- Et; exact El|]. do 2 (split; [assumption|]).
  destruct Hback as [Hv|Hback]; [left; exact Hv|].
  destruct (decide (v = [])) as [Hv|Hv]; [left; exact Hv|]. right.
  split; [|exact Hback].
  destruct Hfront as [E0|Hfront].
  { rewrite E0 in Et. destruct v; [congruence|discriminate]. }
  destruct (DecodeRuneInString v) as [r n] eqn:Hdec. cbn [fst].
  destruct (Z.le_gt_cases 2 n) as [H2|H2].
  - rewrite (DecodeRuneInString_prefix v v0 r n Hdec (or_introl H2)) in Hfront.
    + exact Hfront.
    + destruct (DecodeRuneInString_size _ _ _ Hdec) as [(? & _)|[_ Hn]];
        [congruence|]. rewrite Et, len_app. pose proof (len_nonneg t). lia.
    + intros k Hk. rewrite Et, at_app_l; [reflexivity|].
      destruct (DecodeRuneInString_size _ _ _ Hdec) as [(? & _)|[_ Hn]];
        [congruence|lia].
  - destruct (decide (r = RuneError)) as [->|Hr]; [reflexivity|].
    rewrite (DecodeRuneInString_prefix v v0 r n Hdec (or_intror Hr)) in Hfront.
    + exact Hfront.
    + destruct (DecodeRuneInString_size _ _ _ Hdec) as [(? & _)|[_ Hn]];
        [congruence|]. rewrite Et, len_app. pose proof (len_nonneg t). lia.
    + intros k Hk. rewrite Et, at_app_l; [reflexivity|].
      destruct (DecodeRuneInString_size _ _ _ Hdec) as [(? & _)|[_ Hn]];
        [congruence|lia].
Qed.

Lemma string_of_list_ascii_app (x y : list ascii) :
  string_of_list_ascii (x ++ y)%list
  = string_of_list_ascii x +:+ string_of_list_ascii y.
Proof.
  induction x as [|c x IH]; [reflexivity|]. cbn. rewrite IH. reflexivity.
Qed.

(** [strings.TrimSpace] in the general reading: its argument is white
    space, then its result, then white space, and its result, unless
    empty, neither starts nor ends with a white-space rune. *)
Theorem TrimSpace_spec (s : string) :
  exists l t : string,
    s = l +:+ strings.TrimSpace s +:+ t
    /\ spaces (list_ascii_of_string l)
    /\ spaces (list_ascii_of_string t)
    /\ (strings.TrimSpace s = ""
        \/ (unicode.IsSpace
              (fst (DecodeRuneInString
                      (list_ascii_of_string (strings.TrimSpace s)))) = false
            /\ unicode.IsSpace
                 (fst (DecodeLastRuneInString
                         (list_ascii_of_string (strings.TrimSpace s)))) = false)).
Proof.
  destruct (TrimFunc_spec (list_ascii_of_string s)) as (l & t & E & Hl & Ht & Hv).
  exists (string_of_list_ascii l), (string_of_list_ascii t).
  unfold strings.TrimSpace.
  rewrite !list_ascii_of_string_of_list_ascii.
  split; [|split; [exact Hl|split; [exact Ht|]]].
  - rewrite <- !string_of_list_ascii_app, <- E.
    symmetry. apply string_of_list_ascii_of_string.
  - destruct Hv as [->|Hv]; [left; reflexivity|right; exact Hv].
Qed.

(** *** Strings in ASCII *)

Lemma byte_range c : 0 <= byte c < 256.
Proof.
  unfold byte. pose proof (N_ascii_bounded c). lia.
Qed.

Lemma whitespace_IsSpace c :
  byte c < RuneSelf -> unicode.IsSpace (byte c) = whitespace c.
Proof.
  destruct c as [[] [] [] [] [] [] [] []]; vm_compute; intros; congruence.
Qed.

Lemma DecodeRuneInString_ascii c t :
  byte c < RuneSelf -> DecodeRuneInString (c :: t) = (byte c, 1).
Proof.
  intros Hc. unfold DecodeRuneInString, len.
  change (at_ (c :: t) 0) with (byte c). cbn [length].
  pose proof (byte_range c).
  rewrite (proj2 (Z.ltb_ge _ _)) by lia.
  unfold first, RuneSelf in *.
  rewrite (proj2 (Z.ltb_lt (byte c) 128)) by lia.
  reflexivity.
Qed.

Lemma slice_to_end (s : list ascii) (i : nat) :
  slice s (Z.of_nat i) (len s) = drop i s.
Proof.
  unfold slice, len. rewrite Nat2Z.id.
  apply take_ge. rewrite length_drop. lia.
Qed.

Lemma slice_from_start (s : list ascii) (i : nat) :
  slice s 0 (Z.of_nat i) = take i s.
Proof.
  unfold slice. cbn [Z.to_nat drop]. rewrite Z.sub_0_r, Nat2Z.id. reflexivity.
Qed.

Lemma isASCII_cons c t : isASCII (c :: t) = true -> byte c < RuneSelf /\ isASCII t = true.
Proof.
  unfold isASCII. cbn [forallb]. intros [H1 H2]%andb_prop. split; [lia|exact H2].
Qed.

Lemma isASCII_drop s n : isASCII s = true -> isASCII (drop n s) = true.
Proof.
  revert n. induction s as [|c t IH]; intros n H.
  - destruct n; reflexivity.
  - destruct n as [|n]; [exact H|].
    apply isASCII_cons in H as [_ H]. cbn [drop]. apply IH, H.
Qed.

Lemma indexFunc_loop_ascii (fuel : nat) (s : list ascii) (i : nat) :
  isASCII s = true ->
  (length s <= i + fuel)%nat ->
  let k := indexFunc_loop fuel s (Z.of_nat i) unicode.IsSpace false in
  (if k =? -1 then [] else slice s k (len s)) = dropLeading (drop i s).
Proof.
  intros Hs. revert i. induction fuel as [|fuel IH]; intros i Hfuel; cbn zeta.
  - cbn [indexFunc_loop]. rewrite drop_ge by lia. reflexivity.
  - cbn [indexFunc_loop].
    destruct (Z.leb_spec (len s) (Z.of_nat i)) as [Hi|Hi]; unfold len in Hi.
    + rewrite drop_ge by lia. reflexivity.
    + rewrite slice_to_end.
      destruct (drop i s) as [|c t] eqn:E.
      { apply (f_equal length) in E. rewrite length_drop in E. cbn in E. lia. }
      pose proof (isASCII_drop s i Hs) as Ha. rewrite E in Ha.
      apply isASCII_cons in Ha as [Hc _].
      rewrite (DecodeRuneInString_ascii c t Hc), (whitespace_IsSpace c Hc).
      cbn [dropLeading]. destruct (whitespace c); cbn [Bool.eqb].
      * replace (Z.of_nat i + 1) with (Z.of_nat (S i)) by lia.
        specialize (IH (S i)). cbn zeta in IH. rewrite IH by lia.
        f_equal. change t with (drop 1 (c :: t)). rewrite <- E, drop_drop.
        f_equal. lia.
      * rewrite (proj2 (Z.eqb_neq _ _)) by lia.
        rewrite slice_to_end. exact E.
Qed.

Lemma at_ascii (s : list ascii) (i : Z) : isASCII s = true -> at_ s i < RuneSelf.
Proof.
  intros Hs. unfold at_.
  destruct (s !! Z.to_nat i) as [c|] eqn:E; [|reflexivity].
  apply take_drop_middle in E. rewrite <- E in Hs.
  unfold isASCII in Hs. rewrite forallb_app in Hs.
  apply andb_prop in Hs as [_ Hs]. apply isASCII_cons in Hs as [Hc _]. exact Hc.
Qed.

Lemma DecodeLastRuneInString_ascii (l : list ascii) (c : ascii) :
  byte c < RuneSelf -> DecodeLastRuneInString (l ++ [c]) = (byte c, 1).
Proof.
  intros Hc. unfold DecodeLastRuneInString, len.
  rewrite length_app. cbn [length].
  rewrite (proj2 (Z.eqb_neq _ _)) by lia.
  assert (E : at_ (l ++ [c]) (Z.of_nat (length l + 1) - 1) = byte c).
  { unfold at_. replace (Z.to_nat (Z.of_nat (length l + 1) - 1)) with (length l) by lia.
    rewrite list_lookup_middle by reflexivity. reflexivity. }
  rewrite E, (proj2 (Z.ltb_lt _ _)) by exact Hc. reflexivity.
Qed.

Lemma lastIndexFunc_loop_ascii (fuel : nat) (s : list ascii) (i : nat) :
  isASCII s = true ->
  (i <= length s)%nat ->
  (i <= fuel)%nat ->
  let k := lastIndexFunc_loop fuel s (Z.of_nat i) unicode.IsSpace false in
  -1 <= k /\ slice s 0 (k + 1) = dropTrailing (take i s).
Proof.
  intros Hs. revert i. induction fuel as [|fuel IH]; intros i Hi Hfuel; cbn zeta.
  - cbn [lastIndexFunc_loop]. replace i with O by lia. split; [lia|reflexivity].
  - cbn [lastIndexFunc_loop].
    destruct (Z.leb_spec (Z.of_nat i) 0) as [H0|H0].
    { replace i with O by lia. split; [lia|reflexivity]. }
    destruct i as [|j]; [lia|]. rewrite slice_from_start.
    destruct (s !! j) as [c|] eqn:E; [|apply lookup_ge_None in E; lia].
    rewrite (take_S_r s j c E).
    assert (Hc : byte c < RuneSelf).
    { pose proof (at_ascii s (Z.of_nat j) Hs) as A. unfold at_ in A.
      rewrite Nat2Z.id, E in A. exact A. }
    rewrite (DecodeLastRuneInString_ascii _ c Hc), (whitespace_IsSpace c Hc).
    unfold dropTrailing. rewrite rev_app_distr. cbn [rev app dropLeading].
    replace (Z.of_nat (S j) - 1) with (Z.of_nat j) by lia.
    destruct (whitespace c); cbn [Bool.eqb].
    + apply (IH j); lia.
    + split; [lia|].
      replace (Z.of_nat j + 1) with (Z.of_nat (S j)) by lia.
      rewrite slice_from_start, (take_S_r s j c E).
      cbn [rev]. rewrite rev_involutive. reflexivity.
Qed.

Lemma TrimLeftFunc_ascii (s : list ascii) :
  isASCII s = true -> TrimLeftFunc s unicode.IsSpace = dropLeading s.
Proof.
  intros Hs. unfold TrimLeftFunc, indexFunc.
  apply (indexFunc_loop_ascii (length s) s 0 Hs). lia.
Qed.

Lemma TrimRightFunc_ascii (s : list ascii) :
  isASCII s = true -> TrimRightFunc s unicode.IsSpace = dropTrailing s.
Proof.
  intros Hs. unfold TrimRightFunc, lastIndexFunc, len.
  destruct (lastIndexFunc_loop_ascii (length s) s (length s) Hs) as [Hk E]; [lia..|].
  cbn zeta in *. rewrite firstn_all in E.
  pose proof (at_ascii s (lastIndexFunc_loop (length s) s (Z.of_nat (length s))
                            unicode.IsSpace false) Hs) as A.
  rewrite (proj2 (Z.leb_gt RuneSelf _)) by exact A.
  rewrite andb_false_r. exact E.
Qed.

Lemma dropLeading_suffix (s : list ascii) : exists n, dropLeading s = drop n s.
Proof.
  induction s as [|c t [n IH]]; [exists O; reflexivity|].
  cbn [dropLeading]. destruct (whitespace c).
  - exists (S n). exact IH.
  - exists O. reflexivity.
Qed.

Theorem TrimSpace_ascii (s : string) :
  isASCII (list_ascii_of_string s) = true -> strings.TrimSpace s = trimmed s.
Proof.
  intros Hs. unfold strings.TrimSpace, trimmed, TrimFunc.
  rewrite (TrimLeftFunc_ascii _ Hs), TrimRightFunc_ascii; [reflexivity|].
  destruct (dropLeading_suffix (list_ascii_of_string s)) as [n ->].
  apply isASCII_drop, Hs.
Qed.

(** White space in ASCII goes from both ends and stays in the middle. *)
Example TrimSpace_ascii_example :
  strings.TrimSpace (String "009" "  5 5s " +:+ String "010" "") = "5 5s".
Proof. vm_compute. reflexivity. Qed.

(** So does white space beyond ASCII: a leading no-break space (U+00A0,
    bytes C2 A0) and a trailing ideographic space (U+3000, bytes E3 80 80). *)
Example TrimSpace_unicode_example :
  strings.TrimSpace
    (String "194" (String "160" "55s")
     +:+ String "227" (String "128" (String "128" "")))
  = "55s".
Proof. vm_compute. reflexivity. Qed.

(** A byte that is no encoding of a rune decodes to [RuneError], which is
    not white space: a stray A0 stays. *)
Example TrimSpace_invalid_example :
  strings.TrimSpace (" 55s" +:+ String "160" " ") = "55s" +:+ String "160" "".
Proof. vm_compute. reflexivity. Qed.

(** *** Continuation bytes *)

(** The bytes of a rune after its first are continuation bytes. *)
Lemma DecodeRuneInString_continuation (s : list ascii) (r n k : Z) :
  DecodeRuneInString s = (r, n) ->
  1 <= k < n ->
  0x80 <= at_ s k <= 0xBF.
Proof.
  unfold DecodeRuneInString.
  destruct (Z.ltb_spec (len s) 1) as [Hn|Hn].
  { intros [= <- <-]. lia. }
  intros Hdec Hk.
  by_first_byte (at_ s 0); split_ifs_in Hdec; injection Hdec as <- <-;
    try lia;
    assert (Hk' : k = 1 \/ k = 2 \/ k = 3) by lia;
    destruct Hk' as [ -> | [ -> | -> ] ]; lia.
Qed.

Lemma at_range (s : list ascii) (k : Z) : 0 <= at_ s k < 256.
Proof.
  unfold at_. destruct (s !! Z.to_nat k) as [c|]; [|lia].
  unfold byte. pose proof (N_ascii_bounded c). lia.
Qed.

(** [RuneStart] on a byte: it is not a continuation byte. *)
Lemma RuneStart_byte (b : Z) :
  0 <= b < 256 -> RuneStart b = negb ((0x80 <=? b) && (b <=? 0xBF)).
Proof.
  intros Hb.
  assert (Hall : forallb
            (fun n : nat =>
               Bool.eqb (RuneStart (Z.of_nat n))
                        (negb ((0x80 <=? Z.of_nat n) && (Z.of_nat n <=? 0xBF))))
            (seq 0 256) = true) by (vm_compute; reflexivity).
  rewrite forallb_forall in Hall.
  specialize (Hall (Z.to_nat b)). rewrite Z2Nat.id in Hall by lia.
  apply Bool.eqb_prop, Hall, in_seq. lia.
Qed.

Lemma at_app_r (s t : list ascii) (j : Z) :
  0 <= j -> at_ (s ++ t)%list (len s + j) = at_ t j.
Proof.
  intros Hj. unfold at_, len. rewrite lookup_app_r by lia.
  replace (Z.to_nat (Z.of_nat (length s) + j) - length s)%nat with (Z.to_nat j)
    by lia.
  reflexivity.
Qed.

Lemma scanStart_stop (fuel : nat) (s : list ascii) (lim start : Z) :
  lim <= start -> RuneStart (at_ s start) = true ->
  scanStart (S fuel) s lim start = start.
Proof.
  intros Hl Hr. cbn [scanStart].
  rewrite (proj2 (Z.ltb_ge start lim)) by lia. rewrite Hr. reflexivity.
Qed.

Lemma scanStart_step (fuel : nat) (s : list ascii) (lim start : Z) :
  lim <= start -> RuneStart (at_ s start) = false ->
  scanStart (S fuel) s lim start = scanStart fuel s lim (start - 1).
Proof.
  intros Hl Hr. cbn [scanStart].
  rewrite (proj2 (Z.ltb_ge start lim)) by lia. rewrite Hr. reflexivity.
Qed.

(** The last rune of a string that ends with the encoding of a rune is that
    rune. *)
Lemma DecodeLastRuneInString_encoding (x enc : list ascii) (r : Z) :
  DecodeRuneInString enc = (r, len enc) ->
  2 <= len enc \/ r <> RuneError ->
  DecodeLastRuneInString (x ++ enc)%list = (r, len enc).
Proof.
  intros Hdec Hv.
  destruct (DecodeRuneInString_size _ _ _ Hdec) as [(_ & -> & E0)|[Hn _]];
    [destruct Hv; [lia|congruence]|].
  pose proof (len_nonneg x) as Hx.
  assert (Hat : forall k, 0 <= k -> at_ (x ++ enc)%list (len x + k) = at_ enc k)
    by (intros; apply at_app_r; lia).
  unfold DecodeLastRuneInString. rewrite len_app.
  destruct (Z.eqb_spec (len x + len enc) 0); [lia|].
  replace (len x + len enc - 1) with (len x + (len enc - 1)) by lia.
  rewrite Hat by lia.
  destruct (DecodeRuneInString_first _ _ _ Hdec Hv) as [(Ha & Hn1 & Hr)|[Ha Hn2]].
  - rewrite Hn1 in *. change (1 - 1) with 0.
    rewrite (proj2 (Z.ltb_lt _ _)) by exact Ha. rewrite Hr. reflexivity.
  - pose proof (DecodeRuneInString_continuation _ _ _ (len enc - 1) Hdec) as Hc.
    rewrite (proj2 (Z.ltb_ge _ _)) by (unfold RuneSelf; lia).
    assert (Hslice : slice (x ++ enc)%list (len x) (len x + len enc) = enc).
    { unfold slice, len. rewrite Nat2Z.id, drop_app_length.
      apply take_ge. lia. }
    assert (Hscan :
      (let start :=
         scanStart (Z.to_nat UTFMax) (x ++ enc)%list
           (if len x + len enc - UTFMax <? 0 then 0
            else len x + len enc - UTFMax)
           (len x + (len enc - 1) - 1) in
       if start <? 0 then 0 else start) = len x).
    { cbn zeta.
      assert (Hlead : RuneStart (at_ enc 0) = true).
      { rewrite RuneStart_byte by apply at_range.
        pose proof (at_range enc 0).
        rewrite (proj2 (Z.leb_gt (at_ enc 0) 191)), andb_false_r by lia.
        reflexivity. }
      assert (Hcont : forall k, 1 <= k < len enc -> RuneStart (at_ enc k) = false).
      { intros k Hk. rewrite RuneStart_byte by apply at_range.
        pose proof (DecodeRuneInString_continuation _ _ _ k Hdec Hk).
        rewrite (proj2 (Z.leb_le 128 _)), (proj2 (Z.leb_le _ 191)) by lia.
        reflexivity. }
      set (lim := if len x + len enc - UTFMax <? 0 then 0
                  else len x + len enc - UTFMax).
      assert (Hlim : lim <= len x).
      { subst lim. unfold UTFMax. destruct (Z.ltb_spec (len x + len enc - 4) 0); lia. }
      change (Z.to_nat UTFMax) with 4%nat.
      assert (Hcase : len enc = 2 \/ len enc = 3 \/ len enc = 4) by lia.
      assert (Hstop : forall fuel, scanStart (S fuel) (x ++ enc)%list lim (len x + 0)
                                   = len x + 0).
      { intros fuel. apply scanStart_stop; [lia|]. rewrite Hat by lia. exact Hlead. }
      assert (Hstep : forall fuel k, 1 <= k < len enc ->
                scanStart (S fuel) (x ++ enc)%list lim (len x + k)
                = scanStart fuel (x ++ enc)%list lim (len x + (k - 1))).
      { intros fuel k Hk. rewrite scanStart_step; [f_equal; lia|lia|].
        rewrite Hat by lia. apply Hcont, Hk. }
      destruct Hcase as [E|[E|E]]; rewrite E in *.
      - replace (len x + (2 - 1) - 1) with (len x + 0) by lia.
        rewrite Hstop. destruct (Z.ltb_spec (len x + 0) 0); lia.
      - replace (len x + (3 - 1) - 1) with (len x + 1) by lia.
        rewrite Hstep by lia. change (1 - 1) with 0.
        rewrite Hstop. destruct (Z.ltb_spec (len x + 0) 0); lia.
      - replace (len x + (4 - 1) - 1) with (len x + 2) by lia.
        rewrite Hstep by lia. change (2 - 1) with 1.
        rewrite Hstep by lia. change (1 - 1) with 0.
        rewrite Hstop. destruct (Z.ltb_spec (len x + 0) 0); lia. }
    cbn zeta in Hscan. rewrite Hscan, Hslice, Hdec.
    rewrite (proj2 (Z.eqb_eq _ _)) by reflexivity. reflexivity.
Qed.

(** *** Rows of white space *)

Lemma spaces_chunk (enc : list ascii) (r : Z) :
  DecodeRuneInString enc = (r, len enc) -> unicode.IsSpace r = true ->
  1 <= len enc /\ r <> RuneError.
Proof.
  intros Hdec Hr. pose proof (IsSpace_RuneError r Hr) as Hne. split; [|exact Hne].
  destruct (DecodeRuneInString_size _ _ _ Hdec) as [(_ & ? & _)|[? _]];
    [congruence|lia].
Qed.

(** White space that is not empty starts with a white-space rune, whatever
    follows it. *)
Lemma spaces_head (s y : list ascii) :
  spaces s -> s <> [] ->
  unicode.IsSpace (fst (DecodeRuneInString (s ++ y)%list)) = true.
Proof.
  intros [|enc rest r Hdec Hr _] Hne; [congruence|].
  destruct (spaces_chunk enc r Hdec Hr) as [Hn Hv].
  rewrite (DecodeRuneInString_prefix enc _ r (len enc) Hdec (or_intror Hv)).
  - exact Hr.
  - rewrite !len_app. pose proof (len_nonneg rest). pose proof (len_nonneg y). lia.
  - intros k Hk. rewrite <- app_assoc. apply at_app_l. lia.
Qed.

(** White space that is not empty ends with the encoding of a white-space
    rune. *)
Lemma spaces_last (s : list ascii) :
  spaces s -> s <> [] ->
  exists (x enc : list ascii) (r : Z),
    s = (x ++ enc)%list /\ spaces x
    /\ DecodeRuneInString enc = (r, len enc) /\ unicode.IsSpace r = true.
Proof.
  induction 1 as [|enc rest r Hdec Hr Hrest IH]; intros Hne; [congruence|].
  destruct rest as [|c rest].
  - exists [], enc, r. rewrite app_nil_r. repeat split; auto; constructor.
  - destruct IH as (x & enc' & r' & E & Hx & Hdec' & Hr'); [discriminate|].
    exists (enc ++ x)%list, enc', r'. rewrite E, app_assoc.
    repeat split; auto. exact (spaces_cons enc x r Hdec Hr Hx).
Qed.

Lemma spaces_last_rune (v s : list ascii) :
  spaces s -> s <> [] ->
  unicode.IsSpace (fst (DecodeLastRuneInString (v ++ s)%list)) = true.
Proof.
  intros Hs Hne.
  destruct (spaces_last s Hs Hne) as (x & enc & r & -> & _ & Hdec & Hr).
  destruct (spaces_chunk enc r Hdec Hr) as [_ Hv].
  rewrite app_assoc.
  rewrite (DecodeLastRuneInString_encoding _ enc r Hdec (or_intror Hv)).
  exact Hr.
Qed.

(** Of two rows of white space at the front of a string, one continues the
    other by white space. *)
Lemma spaces_front (a c : list ascii) :
  spaces a -> spaces (a ++ c)%list -> spaces c.
Proof.
  induction 1 as [|enc rest r Hdec Hr Hrest IH]; intros Hac; [exact Hac|].
  destruct (spaces_chunk enc r Hdec Hr) as [Hn Hv].
  remember ((enc ++ rest) ++ c)%list as s eqn:Es.
  destruct Hac as [|enc' rest' r' Hdec' Hr' Hrest'].
  { destruct enc; [unfold len in Hn; cbn in Hn; lia|discriminate]. }
  destruct (spaces_chunk enc' r' Hdec' Hr') as [Hn' Hv'].
  assert (Hs : DecodeRuneInString (enc' ++ rest')%list = (r, len enc)).
  { rewrite Es, <- app_assoc.
    apply (DecodeRuneInString_prefix enc _ r (len enc) Hdec (or_intror Hv)).
    - rewrite len_app. pose proof (len_nonneg (rest ++ c)%list). lia.
    - intros k Hk. apply at_app_l. lia. }
  assert (Hs' : DecodeRuneInString (enc' ++ rest')%list = (r', len enc')).
  { apply (DecodeRuneInString_prefix enc' _ r' (len enc') Hdec' (or_intror Hv')).
    - rewrite len_app. pose proof (len_nonneg rest'). lia.
    - intros k Hk. apply at_app_l. lia. }
  rewrite Hs in Hs'. injection Hs' as _ Hlen.
  rewrite <- app_assoc in Es.
  apply app_inj_1 in Es as [_ Es]; [|unfold len in Hlen; lia].
  apply IH. rewrite <- Es. exact Hrest'.
Qed.

(** Of two rows of white space at the back of a string, one continues the
    other by white space. *)
Lemma spaces_back (t : list ascii) :
  spaces t -> forall c t' : list ascii, t = (c ++ t')%list -> spaces t' -> spaces c.
Proof.
  induction 1 as [|enc rest r Hdec Hr Hrest IH]; intros c t' E Ht'.
  { symmetry in E. apply app_eq_nil in E as [-> _]. constructor. }
  destruct (spaces_chunk enc r Hdec Hr) as [Hn Hv].
  apply app_eq_app in E as [l [[-> ->]|[-> ->]]].
  - (* the cut falls inside [enc], or at its ends *)
    destruct l as [|b l]; [rewrite app_nil_r in *; apply (spaces_one c r); auto|].
    destruct c as [|a c]; [constructor|].
    exfalso.
    assert (Hk : 1 <= len (a :: c) < len ((a :: c) ++ b :: l)%list).
    { rewrite len_app. unfold len. cbn [length]. lia. }
    pose proof (DecodeRuneInString_continuation _ _ _ _ Hdec Hk) as Hc.
    pose proof (at_app_r (a :: c) (b :: l) 0 ltac:(lia)) as Hx.
    rewrite Z.add_0_r in Hx. rewrite Hx in Hc.
    destruct (spaces_start _ Ht') as [E|Hs]; [discriminate|].
    change (at_ ((b :: l) ++ rest) 0) with (at_ (b :: l) 0) in Hs. lia.
  - apply (spaces_cons enc l r Hdec Hr). apply (IH l t'); auto.
Qed.

(** *** What is trimmed is determined *)

(** A string that does not start with a white-space rune does not do so
    either when white space follows it. *)
Lemma DecodeRuneInString_before_spaces (v t : list ascii) :
  v <> [] -> spaces t ->
  unicode.IsSpace (fst (DecodeRuneInString v)) = false ->
  unicode.IsSpace (fst (DecodeRuneInString (v ++ t)%list)) = false.
Proof.
  intros Hv Ht Hfront.
  destruct (DecodeRuneInString (v ++ t)%list) as [r n] eqn:Hdec. cbn [fst].
  destruct (decide (2 <= n \/ r <> RuneError)) as [Hvalid|Hinvalid]; cycle 1.
  { destruct (decide (r = RuneError)) as [->|Hr]; [reflexivity|].
    exfalso. apply Hinvalid. right. exact Hr. }
  pose proof (len_pos v Hv) as Hlen.
  destruct (DecodeRuneInString_size _ _ _ Hdec) as [(E & _)|[Hn Hn']].
  { apply app_eq_nil in E as [? _]. congruence. }
  destruct (Z.le_gt_cases n (len v)) as [Hin|Hout].
  - rewrite (DecodeRuneInString_prefix _ v r n Hdec Hvalid Hin) in Hfront.
    + exact Hfront.
    + intros k Hk. symmetry. apply at_app_l. lia.
  - exfalso.
    assert (Hk : 1 <= len v < n) by lia.
    pose proof (DecodeRuneInString_continuation _ _ _ _ Hdec Hk) as Hc.
    pose proof (at_app_r v t 0 ltac:(lia)) as Hx.
    rewrite Z.add_0_r in Hx. rewrite Hx in Hc.
    destruct (spaces_start t Ht) as [->|Hs]; [|lia].
    rewrite app_nil_r in Hn'. lia.
Qed.

Lemma TrimLeftFunc_unique (l w : list ascii) :
  spaces l ->
  w = [] \/ unicode.IsSpace (fst (DecodeRuneInString w)) = false ->
  TrimLeftFunc (l ++ w)%list unicode.IsSpace = w.
Proof.
  intros Hl Hw.
  destruct (TrimLeftFunc_spec (l ++ w)%list) as (l' & E & Hl' & Hfront).
  remember (TrimLeftFunc (l ++ w)%list unicode.IsSpace) as u eqn:Eu. clear Eu.
  apply app_eq_app in E as [c [[-> ->]|[-> ->]]].
  - (* [l = l' ++ c] and [u = c ++ w] *)
    pose proof (spaces_front l' c Hl' Hl) as Hc.
    destruct c as [|a c]; [reflexivity|]. exfalso.
    destruct Hfront as [?|Hfront]; [discriminate|].
    rewrite (spaces_head (a :: c) w Hc) in Hfront by discriminate. discriminate.
  - (* [l' = l ++ c] and [w = c ++ u] *)
    pose proof (spaces_front l c Hl Hl') as Hc.
    destruct c as [|a c]; [reflexivity|]. exfalso.
    destruct Hw as [?|Hw]; [discriminate|].
    rewrite (spaces_head (a :: c) u Hc) in Hw by discriminate. discriminate.
Qed.

Lemma TrimRightFunc_unique (v t : list ascii) :
  spaces t ->
  v = [] \/ unicode.IsSpace (fst (DecodeLastRuneInString v)) = false ->
  TrimRightFunc (v ++ t)%list unicode.IsSpace = v.
Proof.
  intros Ht Hv.
  destruct (TrimRightFunc_spec (v ++ t)%list) as (t' & E & Ht' & Hback).
  remember (TrimRightFunc (v ++ t)%list unicode.IsSpace) as u eqn:Eu. clear Eu.
  apply app_eq_app in E as [c [[-> ->]|[-> ->]]].
  - (* [v = u ++ c] and [t' = c ++ t] *)
    pose proof (spaces_back _ Ht' c t eq_refl Ht) as Hc.
    destruct c as [|a c]; [rewrite app_nil_r; reflexivity|]. exfalso.
    destruct Hv as [Hv|Hv]; [destruct u; discriminate|].
    rewrite (spaces_last_rune u (a :: c) Hc) in Hv by discriminate. discriminate.
  - (* [u = v ++ c] and [t = c ++ t'] *)
    pose proof (spaces_back _ Ht c t' eq_refl Ht') as Hc.
    destruct c as [|a c]; [rewrite app_nil_r; reflexivity|]. exfalso.
    destruct Hback as [Hu|Hback]; [destruct v; discriminate|].
    rewrite (spaces_last_rune v (a :: c) Hc) in Hback by discriminate.
    discriminate.
Qed.

(** [TrimFunc] finds the one piece of a string that has white space on
    both sides and no white-space rune at either of its own ends. *)
Lemma TrimFunc_unique (l v t : list ascii) :
  spaces l -> spaces t ->
  v = []
  \/ (unicode.IsSpace (fst (DecodeRuneInString v)) = false
      /\ unicode.IsSpace (fst (DecodeLastRuneInString v)) = false) ->
  TrimFunc (l ++ v ++ t)%list unicode.IsSpace = v.
Proof.
  intros Hl Ht Hv. unfold TrimFunc.
  destruct (decide (v = [])) as [->|Hne].
  - cbn [app]. rewrite <- (app_nil_r (l ++ t)%list).
    rewrite TrimLeftFunc_unique; [reflexivity|apply spaces_app; assumption|].
    left. reflexivity.
  - destruct Hv as [?|[Hfront Hback]]; [congruence|].
    rewrite TrimLeftFunc_unique; [|exact Hl|].
    + apply TrimRightFunc_unique; [exact Ht|right; exact Hback].
    + right. apply DecodeRuneInString_before_spaces; assumption.
Qed.

(** *** On strings *)

Lemma list_ascii_of_string_app (a b : string) :
  list_ascii_of_string (a +:+ b)
  = (list_ascii_of_string a ++ list_ascii_of_string b)%list.
Proof.
  induction a as [|c a IH]; [reflexivity|].
  change (String c a +:+ b) with (String c (a +:+ b)).
  cbn [list_ascii_of_string app]. f_equal. exact IH.
Qed.

Lemma string_of_list_ascii_nil (l : list ascii) :
  string_of_list_ascii l = "" <-> l = [].
Proof. destruct l; split; intros; [reflexivity|reflexivity|discriminate..]. Qed.

Lemma TrimSpace_bare (s : string) : bare (strings.TrimSpace s).
Proof.
  destruct (TrimFunc_spec (list_ascii_of_string s)) as (_ & _ & _ & _ & _ & Hv).
  unfold bare, strings.TrimSpace.
  rewrite list_ascii_of_string_of_list_ascii.
  destruct Hv as [->|Hv]; [left; reflexivity|right; exact Hv].
Qed.

Lemma TrimSpace_split (s : string) :
  exists l t : string,
    s = l +:+ strings.TrimSpace s +:+ t /\ whiteSpace l /\ whiteSpace t.
Proof.
  destruct (TrimFunc_spec (list_ascii_of_string s)) as (l & t & E & Hl & Ht & _).
  exists (string_of_list_ascii l), (string_of_list_ascii t).
  unfold whiteSpace, strings.TrimSpace.
  rewrite !list_ascii_of_string_of_list_ascii.
  split; [|split; assumption].
  rewrite <- !string_of_list_ascii_app, <- E.
  symmetry. apply string_of_list_ascii_of_string.
Qed.

Lemma bare_list (v : string) :
  bare v ->
  list_ascii_of_string v = []
  \/ (unicode.IsSpace (fst (DecodeRuneInString (list_ascii_of_string v))) = false
      /\ unicode.IsSpace
           (fst (DecodeLastRuneInString (list_ascii_of_string v))) = false).
Proof. intros [->|Hv]; [left; reflexivity|right; exact Hv]. Qed.

Lemma TrimSpace_of (l v t : string) :
  whiteSpace l -> whiteSpace t -> bare v ->
  strings.TrimSpace (l +:+ v +:+ t) = v.
Proof.
  intros Hl Ht Hv. unfold strings.TrimSpace.
  rewrite !list_ascii_of_string_app.
  rewrite (TrimFunc_unique _ _ _ Hl Ht (bare_list v Hv)).
  apply string_of_list_ascii_of_string.
Qed.

Lemma append_empty_r (s : string) : s +:+ "" = s.
Proof.
  induction s as [|c s IH]; [reflexivity|].
  change (String c s +:+ "") with (String c (s +:+ "")). f_equal. exact IH.
Qed.

Lemma append_assoc (a b c : string) : (a +:+ b) +:+ c = a +:+ b +:+ c.
Proof.
  induction a as [|x a IH]; [reflexivity|].
  change (String x (a +:+ b) +:+ c = String x (a +:+ b +:+ c)).
  change (String x ((a +:+ b) +:+ c) = String x (a +:+ b +:+ c)).
  f_equal. exact IH.
Qed.

Lemma whiteSpace_empty : whiteSpace "".
Proof. constructor. Qed.

Lemma whiteSpace_app (a b : string) :
  whiteSpace a -> whiteSpace b -> whiteSpace (a +:+ b).
Proof.
  unfold whiteSpace. rewrite list_ascii_of_string_app. apply spaces_app.
Qed.

(** A bare string is its own trimming, and only a bare string is. *)
Lemma TrimSpace_fixed (s : string) : strings.TrimSpace s = s <-> bare s.
Proof.
  split.
  - intros E. rewrite <- E. apply TrimSpace_bare.
  - intros Hs.
    pose proof (TrimSpace_of "" s "" whiteSpace_empty whiteSpace_empty Hs) as E.
    change ("" +:+ s +:+ "") with (s +:+ "") in E.
    rewrite append_empty_r in E. exact E.
Qed.

(** The trimming is empty for white space, and for white space only. *)
Lemma TrimSpace_empty (s : string) : strings.TrimSpace s = "" <-> whiteSpace s.
Proof.
  split.
  - intros E. destruct (TrimSpace_split s) as (l & t & Es & Hl & Ht).
    rewrite E in Es. change ("" +:+ t) with t in Es. rewrite Es.
    apply whiteSpace_app; assumption.
  - intros Hs.
    pose proof (TrimSpace_of s "" "" Hs whiteSpace_empty (or_introl eq_refl)) as E.
    change ("" +:+ "") with "" in E.
    rewrite append_empty_r in E. exact E.
Qed.

(** White space around a string does not change its trimming. *)
Lemma TrimSpace_padded (l s t : string) :
  whiteSpace l -> whiteSpace t ->
  strings.TrimSpace (l +:+ s +:+ t) = strings.TrimSpace s.
Proof.
  intros Hl Ht.
  destruct (TrimSpace_split s) as (l0 & t0 & Es & Hl0 & Ht0).
  rewrite Es at 1.
  rewrite !append_assoc, <- (append_assoc l l0).
  apply TrimSpace_of;
    [apply whiteSpace_app; assumption..|apply TrimSpace_bare].
Qed.

Lemma TrimSpace_again (s : string) :
  strings.TrimSpace (strings.TrimSpace s) = strings.TrimSpace s.
Proof. apply TrimSpace_fixed, TrimSpace_bare. Qed.

End TrimSpaceFacts.

(** X1.  [strings.TrimSpace], as [connectSidecar] calls it, is described
    in full: it returns [v] on [s] exactly when [v] is bare and [s] is white
    space, [v], white space. *)
Theorem TrimSpace_unique (s v : string) :
  strings.TrimSpace s = v
  <-> bare v
      /\ exists l t : string,
           whiteSpace l /\ whiteSpace t /\ s = l +:+ v +:+ t.
Proof.
  split.
  - intros <-. split; [apply TrimSpace_bare|].
    destruct (TrimSpace_split s) as (l & t & E & Hl & Ht). exists l, t. auto.
  - intros (Hv & l & t & Hl & Ht & ->). apply TrimSpace_of; assumption.
Qed.

(** ** Properties of [connectSidecar] *)

Section ConnectSidecarFacts.

Variable volumeName : string.
Variable annotationSyncPeriod : string.

Local Abbreviation call := (connectSidecar volumeName annotationSyncPeriod).

(** A call through valid pointers returns, leaves the world as it found
    it, and the container is the following one. *)
Lemma connectSidecar_returns (w : World) (h pod : ptr) (H : Handler.t) (P : Pod.t) :
  derefHandler h w = Some H ->
  derefPod pod w = Some P ->
  call h pod w =
    (Return {|
       Container.Name := "consul-connect-sidecar";
       Container.Image := Handler.ImageConsulK8s H;
       Container.Command :=
         (["consul-k8s"; "connect-sidecar";
           "-service-config"; "/consul/connect-inject/service.hcl"]
          ++ (if String.eqb (Handler.AuthMethod H) "" then []
              else ["-token-file=/consul/connect-inject/acl-token"])
          ++ match ObjectMeta.Annotations (Pod.ObjectMeta P)
                     !! annotationSyncPeriod with
             | Some period => ["-sync-period=" +:+ strings.TrimSpace period]
             | None => []
             end)%list;
       Container.Args := [];
       Container.Env := [
         {| EnvVar.Name := "HOST_IP";
            EnvVar.Value := "";
            EnvVar.ValueFrom := Some {|
              EnvVarSource.FieldRef :=
                Some {| ObjectFieldSelector.FieldPath := "status.hostIP" |}
            |} |};
         {| EnvVar.Name := "CONSUL_HTTP_ADDR";
            EnvVar.Value := "$(HOST_IP):8500";
            EnvVar.ValueFrom := None |}
       ];
       Container.VolumeMounts := [
         {| VolumeMount.Name := volumeName;
            VolumeMount.MountPath := "/consul/connect-inject" |}
       ]
     |}, w).
Proof.
  intros Hh Hp.
  unfold connectSidecar, mbind, Exec_bind, mret, Exec_ret, readHandler, readPod.
  rewrite Hh; cbn beta iota; rewrite Hp; cbn beta iota; rewrite Hh.
  destruct (String.eqb (Handler.AuthMethod H) "");
    destruct (ObjectMeta.Annotations (Pod.ObjectMeta P) !! annotationSyncPeriod);
    reflexivity.
Qed.

(** No argument of the fixed part of the command is the token-file flag
    or a sync-period flag. *)
Lemma sync_period_not_fixed (v : string) :
  "-sync-period=" +:+ v ∉
    ["consul-k8s"; "connect-sidecar"; "-service-config";
     "/consul/connect-inject/service.hcl";
     "-token-file=/consul/connect-inject/acl-token"].
Proof.
  rewrite !elem_of_cons, elem_of_nil. cbn [String.append].
  intros [?|[?|[?|[?|[?|[]]]]]]; discriminate.
Qed.

(** C1.  The container of a handler without auth method for a pod without
    the sync-period annotation: the command is exactly the four fixed
    arguments; the environment binds [HOST_IP] to the field
    [status.hostIP] and sets [CONSUL_HTTP_ADDR] to the reference to
    [HOST_IP] followed by the port [8500]; there is exactly one volume
    mount, at [/consul/connect-inject]. *)
Theorem connectSidecar_default (w : World) (h pod : ptr) (H : Handler.t) (P : Pod.t) :
  derefHandler h w = Some H ->
  derefPod pod w = Some P ->
  Handler.AuthMethod H = "" ->
  ObjectMeta.Annotations (Pod.ObjectMeta P) !! annotationSyncPeriod = None ->
  exists c hostIP httpAddr mount,
    call h pod w = (Return c, w)
    /\ Container.Command c =
         ["consul-k8s"; "connect-sidecar";
          "-service-config"; "/consul/connect-inject/service.hcl"]
    /\ Container.Env c = [hostIP; httpAddr]
    /\ EnvVar.Name hostIP = "HOST_IP"
    /\ EnvVar.ValueFrom hostIP =
         Some {| EnvVarSource.FieldRef :=
                   Some {| ObjectFieldSelector.FieldPath := "status.hostIP" |} |}
    /\ EnvVar.Name httpAddr = "CONSUL_HTTP_ADDR"
    /\ EnvVar.Value httpAddr = "$(HOST_IP):8500"
    /\ EnvVar.Value httpAddr = "$(" +:+ EnvVar.Name hostIP +:+ ")" +:+ ":8500"
    /\ EnvVar.ValueFrom httpAddr = None
    /\ Container.VolumeMounts c = [mount]
    /\ VolumeMount.Name mount = volumeName
    /\ VolumeMount.MountPath mount = "/consul/connect-inject".
Proof.
  intros Hh Hp Hauth Hann.
  rewrite (connectSidecar_returns w h pod H P Hh Hp), Hauth, Hann.
  do 4 eexists. repeat split.
Qed.

(** C2.  The command carries the argument
    [-token-file=/consul/connect-inject/acl-token] exactly when the
    handler's [AuthMethod] is not the empty string. *)
Theorem connectSidecar_token_file (w : World) (h pod : ptr) (H : Handler.t) (P : Pod.t) :
  derefHandler h w = Some H ->
  derefPod pod w = Some P ->
  exists c,
    call h pod w = (Return c, w)
    /\ ("-token-file=/consul/connect-inject/acl-token" ∈ Container.Command c
        <-> Handler.AuthMethod H <> "").
Proof.
  intros Hh Hp.
  rewrite (connectSidecar_returns w h pod H P Hh Hp).
  eexists; split; [reflexivity|]. cbn [Container.Command].
  rewrite !elem_of_app, !elem_of_cons, elem_of_nil.
  destruct (String.eqb_spec (Handler.AuthMethod H) "") as [He|He].
  - split; [|congruence].
    intros [[?|[?|[?|[?|[]]]]]|[Hin|Hin]]; try discriminate.
    + apply elem_of_nil in Hin as [].
    + destruct (ObjectMeta.Annotations (Pod.ObjectMeta P) !! annotationSyncPeriod).
      * apply list_elem_of_singleton in Hin. cbn [String.append] in Hin.
        discriminate.
      * apply elem_of_nil in Hin as [].
  - split; [intros _; exact He|].
    intros _. right. left. apply list_elem_of_singleton. reflexivity.
Qed.

(** C3.  The command carries an argument [-sync-period=v] exactly when
    the pod has the sync-period annotation, and then for one [v] only:
    what [strings.TrimSpace] makes of the annotation's value, which is the
    value between the white space at its two ends and, for a value in
    ASCII, the value without its leading and trailing white-space
    characters. *)
Theorem connectSidecar_sync_period (w : World) (h pod : ptr) (H : Handler.t) (P : Pod.t) :
  derefHandler h w = Some H ->
  derefPod pod w = Some P ->
  exists c,
    call h pod w = (Return c, w)
    /\ ((exists v, "-sync-period=" +:+ v ∈ Container.Command c)
        <-> is_Some (ObjectMeta.Annotations (Pod.ObjectMeta P)
                       !! annotationSyncPeriod))
    /\ (forall period,
          ObjectMeta.Annotations (Pod.ObjectMeta P) !! annotationSyncPeriod
            = Some period ->
          (forall v, "-sync-period=" +:+ v ∈ Container.Command c
                     <-> v = strings.TrimSpace period)
          /\ (exists l t : string,
                period = l +:+ strings.TrimSpace period +:+ t
                /\ spaces (list_ascii_of_string l)
                /\ spaces (list_ascii_of_string t)
                /\ (strings.TrimSpace period = ""
                    \/ (unicode.IsSpace
                          (fst (utf8.DecodeRuneInString
                                  (list_ascii_of_string
                                     (strings.TrimSpace period)))) = false
                        /\ unicode.IsSpace
                             (fst (utf8.DecodeLastRuneInString
                                     (list_ascii_of_string
                                        (strings.TrimSpace period)))) = false)))
          /\ (isASCII (list_ascii_of_string period) = true ->
              strings.TrimSpace period = trimmed period)).
Proof.
  intros Hh Hp.
  rewrite (connectSidecar_returns w h pod H P Hh Hp).
  eexists; split; [reflexivity|]. cbn [Container.Command].
  assert (Hfixed : forall v,
    "-sync-period=" +:+ v ∈
      (["consul-k8s"; "connect-sidecar"; "-service-config";
        "/consul/connect-inject/service.hcl"]
       ++ (if String.eqb (Handler.AuthMethod H) "" then []
           else ["-token-file=/consul/connect-inject/acl-token"]))%list ->
    False).
  { intros v Hin. apply (sync_period_not_fixed v).
    apply elem_of_app in Hin as [Hin|Hin].
    - revert Hin. rewrite !elem_of_cons. tauto.
    - destruct (String.eqb _ _); [apply elem_of_nil in Hin as []|].
      apply list_elem_of_singleton in Hin. rewrite Hin.
      rewrite !elem_of_cons. tauto. }
  destruct (ObjectMeta.Annotations (Pod.ObjectMeta P) !! annotationSyncPeriod)
    as [period|].
  - split.
    + split; [intros _; eexists; reflexivity|].
      intros _. exists (strings.TrimSpace period).
      rewrite app_assoc, elem_of_app. right.
      apply list_elem_of_singleton. reflexivity.
    + intros ? [= <-].
      split; [|split; [|apply TrimSpace_ascii]]; cycle 1.
      { apply TrimSpace_spec. }
      intros v. rewrite app_assoc, elem_of_app, list_elem_of_singleton.
      split.
      * intros [Hin|Heq]; [destruct (Hfixed v Hin)|].
        apply (inj (String.append "-sync-period=")) in Heq. exact Heq.
      * intros ->. right. reflexivity.
  - split.
    + split; [|intros [? [=]]].
      intros [v Hin]. rewrite app_nil_r in Hin. destruct (Hfixed v Hin).
    + intros ? [=].
Qed.

(** C4.  The call is a function of the handler's configuration and of the
    pod: two calls, in whatever worlds and through whatever pointers,
    that find equal handlers and equal pods return equal containers; and
    a call has no effect: the world after it (heap and log) is the world
    before it. *)
Theorem connectSidecar_deterministic
    (w1 w2 : World) (h1 h2 pod1 pod2 : ptr) (H : Handler.t) (P : Pod.t) :
  derefHandler h1 w1 = Some H ->
  derefHandler h2 w2 = Some H ->
  derefPod pod1 w1 = Some P ->
  derefPod pod2 w2 = Some P ->
  exists c,
    call h1 pod1 w1 = (Return c, w1)
    /\ call h2 pod2 w2 = (Return c, w2).
Proof.
  intros Hh1 Hh2 Hp1 Hp2.
  rewrite (connectSidecar_returns w1 h1 pod1 H P Hh1 Hp1).
  rewrite (connectSidecar_returns w2 h2 pod2 H P Hh2 Hp2).
  eexists; split; reflexivity.
Qed.

(** C9.  The container depends on the handler through [AuthMethod] and
    [ImageConsulK8s] only and on the pod through its sync-period
    annotation only: handlers that agree on the two fields and pods whose
    annotations agree at the sync-period key give equal containers,
    whatever the rest of the pods (name, labels, other annotations,
    containers) and of the handlers. *)
Theorem connectSidecar_depends_only
    (w1 w2 : World) (h1 h2 pod1 pod2 : ptr) (H1 H2 : Handler.t) (P1 P2 : Pod.t) :
  derefHandler h1 w1 = Some H1 ->
  derefHandler h2 w2 = Some H2 ->
  derefPod pod1 w1 = Some P1 ->
  derefPod pod2 w2 = Some P2 ->
  Handler.AuthMethod H1 = Handler.AuthMethod H2 ->
  Handler.ImageConsulK8s H1 = Handler.ImageConsulK8s H2 ->
  ObjectMeta.Annotations (Pod.ObjectMeta P1) !! annotationSyncPeriod
    = ObjectMeta.Annotations (Pod.ObjectMeta P2) !! annotationSyncPeriod ->
  exists c,
    call h1 pod1 w1 = (Return c, w1)
    /\ call h2 pod2 w2 = (Return c, w2).
Proof.
  intros Hh1 Hh2 Hp1 Hp2 Hauth Himage Hann.
  rewrite (connectSidecar_returns w1 h1 pod1 H1 P1 Hh1 Hp1).
  rewrite (connectSidecar_returns w2 h2 pod2 H2 P2 Hh2 Hp2).
  rewrite Hauth, Himage, Hann.
  eexists; split; reflexivity.
Qed.

(** C10.  The call writes to neither of its arguments: in the world it
    leaves, whether it returned or panicked, the receiver and the pod
    argument point to what they pointed to before, and so does every
    other pointer. *)
Theorem connectSidecar_frame (w : World) (h pod : ptr) :
  let w' := snd (call h pod w) in
  derefHandler h w' = derefHandler h w
  /\ derefPod pod w' = derefPod pod w
  /\ w' = w.
Proof.
  assert (Hw : snd (call h pod w) = w).
  { unfold connectSidecar, mbind, Exec_bind, mret, Exec_ret, readHandler, readPod.
    destruct (derefHandler h w) as [H|] eqn:Hh; cbn beta iota; [|reflexivity].
    destruct (derefPod pod w) as [P|]; cbn beta iota; [|reflexivity].
    rewrite Hh. reflexivity. }
  cbn zeta. rewrite Hw. auto.
Qed.

End ConnectSidecarFacts.

(** *** The tests of [connect_sidecar_test.go], by evaluation *)

(** [TestConnectSidecar_Default]: the container expected by the test. *)
Example TestConnectSidecar_Default :
  connectSidecar TestInputs.volumeName TestInputs.annotationSyncPeriod
    (addr 1) (addr 2)
    (TestInputs.world (TestInputs.handler "") (TestInputs.pod ∅))
  = (Return {|
       Container.Name := "consul-connect-sidecar";
       Container.Image := "hashicorp/consul-k8s:9.9.9";
       Container.Command := [
         "consul-k8s"; "connect-sidecar";
         "-service-config"; "/consul/connect-inject/service.hcl"
       ];
       Container.Args := [];
       Container.Env := [
         {| EnvVar.Name := "HOST_IP";
            EnvVar.Value := "";
            EnvVar.ValueFrom := Some {|
              EnvVarSource.FieldRef :=
                Some {| ObjectFieldSelector.FieldPath := "status.hostIP" |}
            |} |};
         {| EnvVar.Name := "CONSUL_HTTP_ADDR";
            EnvVar.Value := "$(HOST_IP):8500";
            EnvVar.ValueFrom := None |}
       ];
       Container.VolumeMounts := [
         {| VolumeMount.Name := TestInputs.volumeName;
            VolumeMount.MountPath := "/consul/connect-inject" |}
       ]
     |},
     TestInputs.world (TestInputs.handler "") (TestInputs.pod ∅)).
Proof. vm_compute. reflexivity. Qed.

(** [TestConnectSidecar_SyncPeriodAnnotation], with white space around the
    value of the annotation and an auth method. *)
Example TestConnectSidecar_SyncPeriodAnnotation_trimmed :
  Container.Command <$>
    match
      connectSidecar TestInputs.volumeName TestInputs.annotationSyncPeriod
        (addr 1) (addr 2)
        (TestInputs.world (TestInputs.handler "auth-method")
           (TestInputs.pod {[ TestInputs.annotationSyncPeriod := " 55s " ]}))
    with
    | (Return c, _) => Some c
    | (Panic _, _) => None
    end
  = Some [
      "consul-k8s"; "connect-sidecar";
      "-service-config"; "/consul/connect-inject/service.hcl";
      "-token-file=/consul/connect-inject/acl-token";
      "-sync-period=55s"
    ].
Proof. vm_compute. reflexivity. Qed.

(** A call through a nil pointer panics, and changes nothing either. *)
Example connectSidecar_nil_pod :
  connectSidecar TestInputs.volumeName TestInputs.annotationSyncPeriod
    (addr 1) nilptr
    (TestInputs.world (TestInputs.handler "") (TestInputs.pod ∅))
  = (Panic nilDeref,
     TestInputs.world (TestInputs.handler "") (TestInputs.pod ∅)).
Proof. vm_compute. reflexivity. Qed.

(** *** The tests of [connect_sidecar_test.go], as instances *)

(** [TestConnectSidecar_Default] *)
Lemma connectSidecar_default_witness :
  exists c,
    connectSidecar TestInputs.volumeName TestInputs.annotationSyncPeriod
      (addr 1) (addr 2)
      (TestInputs.world (TestInputs.handler "") (TestInputs.pod ∅))
    = (Return c, TestInputs.world (TestInputs.handler "") (TestInputs.pod ∅))
    /\ Container.Command c =
         ["consul-k8s"; "connect-sidecar";
          "-service-config"; "/consul/connect-inject/service.hcl"].
Proof.
  destruct (connectSidecar_default
              TestInputs.volumeName TestInputs.annotationSyncPeriod
              (TestInputs.world (TestInputs.handler "") (TestInputs.pod ∅))
              (addr 1) (addr 2) (TestInputs.handler "") (TestInputs.pod ∅))
    as (c & _ & _ & _ & Hcall & Hcommand & _);
    [vm_compute; reflexivity ..|].
  exists c. split; assumption.
Defined.

(** [TestConnectSidecar_AuthMethod], the case ["auth-method"] *)
Lemma connectSidecar_token_file_witness :
  exists c,
    connectSidecar TestInputs.volumeName TestInputs.annotationSyncPeriod
      (addr 1) (addr 2)
      (TestInputs.world (TestInputs.handler "auth-method") (TestInputs.pod ∅))
    = (Return c,
       TestInputs.world (TestInputs.handler "auth-method") (TestInputs.pod ∅))
    /\ "-token-file=/consul/connect-inject/acl-token" ∈ Container.Command c.
Proof.
  destruct (connectSidecar_token_file
              TestInputs.volumeName TestInputs.annotationSyncPeriod
              (TestInputs.world (TestInputs.handler "auth-method") (TestInputs.pod ∅))
              (addr 1) (addr 2) (TestInputs.handler "auth-method") (TestInputs.pod ∅))
    as (c & Hcall & Hiff);
    [vm_compute; reflexivity ..|].
  exists c. split; [assumption|]. apply Hiff. discriminate.
Defined.

(** [TestConnectSidecar_SyncPeriodAnnotation] *)
Lemma connectSidecar_sync_period_witness :
  exists c,
    connectSidecar TestInputs.volumeName TestInputs.annotationSyncPeriod
      (addr 1) (addr 2)
      (TestInputs.world (TestInputs.handler "")
         (TestInputs.pod {[ TestInputs.annotationSyncPeriod := "55s" ]}))
    = (Return c,
       TestInputs.world (TestInputs.handler "")
         (TestInputs.pod {[ TestInputs.annotationSyncPeriod := "55s" ]}))
    /\ "-sync-period=55s" ∈ Container.Command c.
Proof.
  destruct (connectSidecar_sync_period
              TestInputs.volumeName TestInputs.annotationSyncPeriod
              (TestInputs.world (TestInputs.handler "")
                 (TestInputs.pod {[ TestInputs.annotationSyncPeriod := "55s" ]}))
              (addr 1) (addr 2) (TestInputs.handler "")
              (TestInputs.pod {[ TestInputs.annotationSyncPeriod := "55s" ]}))
    as (c & Hcall & _ & Hvalue);
    [vm_compute; reflexivity ..|].
  exists c. split; [assumption|].
  destruct (Hvalue "55s") as [Hflag _]; [vm_compute; reflexivity|].
  apply Hflag. vm_compute. reflexivity.
Defined.

(** Two calls on the handler and pod of [TestConnectSidecar_Default], held
    at different addresses of different heaps. *)
Lemma connectSidecar_deterministic_witness :
  exists c,
    connectSidecar TestInputs.volumeName TestInputs.annotationSyncPeriod
      (addr 1) (addr 2)
      (TestInputs.world (TestInputs.handler "") (TestInputs.pod ∅))
    = (Return c, TestInputs.world (TestInputs.handler "") (TestInputs.pod ∅))
    /\ connectSidecar TestInputs.volumeName TestInputs.annotationSyncPeriod
         (addr 7) (addr 5)
         {| handlers := {[ 7%positive := TestInputs.handler "" ]};
            pods := {[ 5%positive := TestInputs.pod ∅;
                       6%positive := TestInputs.pod {[ "a" := "b" ]} ]};
            logged := ["started"] |}
       = (Return c,
          {| handlers := {[ 7%positive := TestInputs.handler "" ]};
             pods := {[ 5%positive := TestInputs.pod ∅;
                        6%positive := TestInputs.pod {[ "a" := "b" ]} ]};
             logged := ["started"] |}).
Proof.
  apply (connectSidecar_deterministic
           TestInputs.volumeName TestInputs.annotationSyncPeriod
           _ _ (addr 1) (addr 7) (addr 2) (addr 5)
           (TestInputs.handler "") (TestInputs.pod ∅));
    vm_compute; reflexivity.
Defined.

(** Two pods that differ in name, labels, containers and in an annotation
    other than the sync period, under handlers that differ in their logger. *)
Lemma connectSidecar_depends_only_witness :
  exists c,
    connectSidecar TestInputs.volumeName TestInputs.annotationSyncPeriod
      (addr 1) (addr 2)
      (TestInputs.world
         (TestInputs.handler "auth-method")
         (TestInputs.pod {[ TestInputs.annotationSyncPeriod := " 55s " ]}))
    = (Return c,
       TestInputs.world
         (TestInputs.handler "auth-method")
         (TestInputs.pod {[ TestInputs.annotationSyncPeriod := " 55s " ]}))
    /\ connectSidecar TestInputs.volumeName TestInputs.annotationSyncPeriod
         (addr 1) (addr 2)
         (TestInputs.world TestInputs.otherHandler (TestInputs.dbPod " 55s "))
       = (Return c,
          TestInputs.world TestInputs.otherHandler (TestInputs.dbPod " 55s ")).
Proof.
  apply (connectSidecar_depends_only
           TestInputs.volumeName TestInputs.annotationSyncPeriod
           _ _ (addr 1) (addr 1) (addr 2) (addr 2)
           (TestInputs.handler "auth-method") TestInputs.otherHandler
           (TestInputs.pod {[ TestInputs.annotationSyncPeriod := " 55s " ]})
           (TestInputs.dbPod " 55s "));
    vm_compute; reflexivity.
Defined.

(** ** More on [connectSidecar] *)

Section ConnectSidecarMore.

Variable volumeName : string.
Variable annotationSyncPeriod : string.

Local Abbreviation run := (connectSidecar volumeName annotationSyncPeriod).
Local Abbreviation syncPeriod P :=
  (ObjectMeta.Annotations (Pod.ObjectMeta P) !! annotationSyncPeriod).

(** The arguments with the prefix [-sync-period=] of the command for a pod
    with the annotation. *)
Lemma sync_period_member (w : World) (h pod : ptr) (H : Handler.t) (P : Pod.t)
    (period : string) :
  derefHandler h w = Some H ->
  derefPod pod w = Some P ->
  syncPeriod P = Some period ->
  exists c,
    run h pod w = (Return c, w)
    /\ forall v, "-sync-period=" +:+ v ∈ Container.Command c
                 <-> v = strings.TrimSpace period.
Proof.
  intros Hh Hp Hann.
  rewrite (connectSidecar_returns _ _ w h pod H P Hh Hp), Hann.
  eexists; split; [reflexivity|]. cbn [Container.Command]. intros v.
  rewrite app_assoc, elem_of_app, list_elem_of_singleton. split.
  - intros [Hin|Heq].
    + destruct (sync_period_not_fixed v). revert Hin.
      rewrite elem_of_app, !elem_of_cons.
      destruct (String.eqb _ _); rewrite ?elem_of_cons, !elem_of_nil; tauto.
    + apply (inj (String.append "-sync-period=")) in Heq. exact Heq.
  - intros ->. right. reflexivity.
Qed.

(** X2.  The command is laid out in one way: the four fixed arguments come
    first, the token-file flag, when there is an auth method, is the fifth
    argument, the sync-period flag, when the pod has the annotation, is the
    last, and there is no other argument. *)
Theorem connectSidecar_command_layout
    (w : World) (h pod : ptr) (H : Handler.t) (P : Pod.t) :
  derefHandler h w = Some H ->
  derefPod pod w = Some P ->
  exists c,
    run h pod w = (Return c, w)
    /\ take 4 (Container.Command c) =
         ["consul-k8s"; "connect-sidecar";
          "-service-config"; "/consul/connect-inject/service.hcl"]
    /\ length (Container.Command c) =
         (4 + (if String.eqb (Handler.AuthMethod H) "" then 0 else 1)
            + (match syncPeriod P with Some _ => 1 | None => 0 end))%nat
    /\ (Handler.AuthMethod H <> "" ->
        Container.Command c !! 4%nat
        = Some "-token-file=/consul/connect-inject/acl-token")
    /\ (forall period,
          syncPeriod P = Some period ->
          last (Container.Command c)
          = Some ("-sync-period=" +:+ strings.TrimSpace period)).
Proof.
  intros Hh Hp.
  rewrite (connectSidecar_returns _ _ w h pod H P Hh Hp).
  eexists; split; [reflexivity|]. cbn [Container.Command].
  destruct (String.eqb_spec (Handler.AuthMethod H) "") as [He|He];
    destruct (syncPeriod P) as [period|];
    (split; [reflexivity|]); (split; [reflexivity|]);
    (split; [intros; try contradiction; reflexivity|]);
    intros ? [= <-]; reflexivity.
Qed.

(** X3.  No argument occurs twice in the command. *)
Theorem connectSidecar_command_NoDup
    (w : World) (h pod : ptr) (H : Handler.t) (P : Pod.t) :
  derefHandler h w = Some H ->
  derefPod pod w = Some P ->
  exists c, run h pod w = (Return c, w) /\ NoDup (Container.Command c).
Proof.
  intros Hh Hp.
  rewrite (connectSidecar_returns _ _ w h pod H P Hh Hp).
  eexists; split; [reflexivity|]. cbn [Container.Command].
  rewrite app_assoc. apply NoDup_app. split; [|split].
  - destruct (String.eqb _ _); apply (bool_decide_unpack _); vm_compute; reflexivity.
  - intros x Hx Hin. destruct (syncPeriod P) as [period|];
      [|apply elem_of_nil in Hin; exact Hin].
    apply list_elem_of_singleton in Hin as ->.
    destruct (sync_period_not_fixed (strings.TrimSpace period)). revert Hx.
    rewrite elem_of_app, !elem_of_cons.
    destruct (String.eqb _ _); rewrite ?elem_of_cons, !elem_of_nil; tauto.
  - destruct (syncPeriod P); [apply NoDup_singleton|apply NoDup_nil_2].
Qed.

(** X4.  Whatever the handler and the pod, the container has the name
    [consul-connect-sidecar], the image of the handler as it stands (be it
    empty), no [Args], the same two environment variables and the same
    single volume mount. *)
Theorem connectSidecar_fixed_parts
    (w : World) (h pod : ptr) (H : Handler.t) (P : Pod.t) :
  derefHandler h w = Some H ->
  derefPod pod w = Some P ->
  exists c,
    run h pod w = (Return c, w)
    /\ Container.Name c = "consul-connect-sidecar"
    /\ Container.Image c = Handler.ImageConsulK8s H
    /\ Container.Args c = []
    /\ Container.Env c = [
         {| EnvVar.Name := "HOST_IP";
            EnvVar.Value := "";
            EnvVar.ValueFrom := Some {|
              EnvVarSource.FieldRef :=
                Some {| ObjectFieldSelector.FieldPath := "status.hostIP" |}
            |} |};
         {| EnvVar.Name := "CONSUL_HTTP_ADDR";
            EnvVar.Value := "$(HOST_IP):8500";
            EnvVar.ValueFrom := None |}
       ]
    /\ Container.VolumeMounts c = [
         {| VolumeMount.Name := volumeName;
            VolumeMount.MountPath := "/consul/connect-inject" |}
       ].
Proof.
  intros Hh Hp.
  rewrite (connectSidecar_returns _ _ w h pod H P Hh Hp).
  eexists; split; [reflexivity|]. repeat split.
Qed.

(** X5.  A call returns a container when the receiver and the pod both
    point to something; when either is nil (or points to nothing) it panics
    with a nil-pointer dereference.  The world after the call is the world
    before it in both cases. *)
Theorem connectSidecar_outcome (w : World) (h pod : ptr) :
  match derefHandler h w, derefPod pod w with
  | Some _, Some _ => exists c, run h pod w = (Return c, w)
  | _, _ => run h pod w = (Panic nilDeref, w)
  end.
Proof.
  destruct (derefHandler h w) as [H|] eqn:Hh.
  - destruct (derefPod pod w) as [P|] eqn:Hp.
    + rewrite (connectSidecar_returns _ _ w h pod H P Hh Hp). eexists; reflexivity.
    + unfold connectSidecar, mbind, Exec_bind, readHandler, readPod.
      rewrite Hh; cbn beta iota; rewrite Hp. reflexivity.
  - unfold connectSidecar, mbind, Exec_bind, readHandler, readPod.
    rewrite Hh. destruct (derefPod pod w); reflexivity.
Qed.

(** X6.  The container depends on the auth method only through its being
    empty or not (its name goes nowhere), and on the annotation only through
    its trimmed value: handlers with the same image and auth methods that
    are both empty or both not, and pods whose annotations trim to the
    same, give equal containers. *)
Theorem connectSidecar_reads_little
    (w1 w2 : World) (h1 h2 pod1 pod2 : ptr) (H1 H2 : Handler.t) (P1 P2 : Pod.t) :
  derefHandler h1 w1 = Some H1 ->
  derefHandler h2 w2 = Some H2 ->
  derefPod pod1 w1 = Some P1 ->
  derefPod pod2 w2 = Some P2 ->
  Handler.ImageConsulK8s H1 = Handler.ImageConsulK8s H2 ->
  (Handler.AuthMethod H1 = "" <-> Handler.AuthMethod H2 = "") ->
  strings.TrimSpace <$> syncPeriod P1 = strings.TrimSpace <$> syncPeriod P2 ->
  exists c,
    run h1 pod1 w1 = (Return c, w1) /\ run h2 pod2 w2 = (Return c, w2).
Proof.
  intros Hh1 Hh2 Hp1 Hp2 Himage Hauth Hann.
  rewrite (connectSidecar_returns _ _ w1 h1 pod1 H1 P1 Hh1 Hp1).
  rewrite (connectSidecar_returns _ _ w2 h2 pod2 H2 P2 Hh2 Hp2).
  rewrite Himage.
  assert (Ea : String.eqb (Handler.AuthMethod H1) ""
               = String.eqb (Handler.AuthMethod H2) "").
  { destruct (String.eqb_spec (Handler.AuthMethod H1) "");
      destruct (String.eqb_spec (Handler.AuthMethod H2) ""); tauto. }
  rewrite Ea.
  destruct (syncPeriod P1) as [p1|]; destruct (syncPeriod P2) as [p2|];
    try discriminate; [injection Hann as ->|]; eexists; split; reflexivity.
Qed.

(** X7.  White space around the value of the annotation is of no account:
    a pod annotated with a value and a pod annotated with the same value
    between two rows of white space get equal containers. *)
Theorem connectSidecar_padding
    (w1 w2 : World) (h1 h2 pod1 pod2 : ptr) (H : Handler.t) (P1 P2 : Pod.t)
    (l period t : string) :
  derefHandler h1 w1 = Some H ->
  derefHandler h2 w2 = Some H ->
  derefPod pod1 w1 = Some P1 ->
  derefPod pod2 w2 = Some P2 ->
  syncPeriod P1 = Some period ->
  syncPeriod P2 = Some (l +:+ period +:+ t) ->
  whiteSpace l -> whiteSpace t ->
  exists c,
    run h1 pod1 w1 = (Return c, w1) /\ run h2 pod2 w2 = (Return c, w2).
Proof.
  intros Hh1 Hh2 Hp1 Hp2 Hann1 Hann2 Hl Ht.
  rewrite (connectSidecar_returns _ _ w1 h1 pod1 H P1 Hh1 Hp1).
  rewrite (connectSidecar_returns _ _ w2 h2 pod2 H P2 Hh2 Hp2).
  rewrite Hann1, Hann2, (TrimSpace_padded l period t Hl Ht).
  eexists; split; reflexivity.
Qed.

(** X8.  The value of the annotation is the value of the flag as it
    stands exactly when it is bare: empty, or with no white-space rune at
    its front or at its back. *)
Theorem connectSidecar_sync_period_verbatim
    (w : World) (h pod : ptr) (H : Handler.t) (P : Pod.t) (period : string) :
  derefHandler h w = Some H ->
  derefPod pod w = Some P ->
  syncPeriod P = Some period ->
  exists c,
    run h pod w = (Return c, w)
    /\ ("-sync-period=" +:+ period ∈ Container.Command c <-> bare period).
Proof.
  intros Hh Hp Hann.
  destruct (sync_period_member w h pod H P period Hh Hp Hann) as (c & Hc & Hv).
  exists c. split; [exact Hc|].
  rewrite (Hv period), <- TrimSpace_fixed. split; intros E; symmetry; exact E.
Qed.

(** X9.  The flag is passed without a value, as [-sync-period=], exactly
    when the value of the annotation is white space (or empty): the flag is
    not left out then. *)
Theorem connectSidecar_sync_period_empty
    (w : World) (h pod : ptr) (H : Handler.t) (P : Pod.t) (period : string) :
  derefHandler h w = Some H ->
  derefPod pod w = Some P ->
  syncPeriod P = Some period ->
  exists c,
    run h pod w = (Return c, w)
    /\ ("-sync-period=" ∈ Container.Command c <-> whiteSpace period).
Proof.
  intros Hh Hp Hann.
  destruct (sync_period_member w h pod H P period Hh Hp Hann) as (c & Hc & Hv).
  exists c. split; [exact Hc|].
  rewrite <- TrimSpace_empty.
  change "-sync-period=" with ("-sync-period=" +:+ "") at 1.
  rewrite (Hv ""). split; intros E; symmetry; exact E.
Qed.

(** X10.  Trimming is done once and for all: the value of the flag, put
    back as the annotation of a pod, gives the same container. *)
Theorem connectSidecar_sync_period_again
    (w1 w2 : World) (h1 h2 pod1 pod2 : ptr) (H : Handler.t) (P1 P2 : Pod.t)
    (period : string) :
  derefHandler h1 w1 = Some H ->
  derefHandler h2 w2 = Some H ->
  derefPod pod1 w1 = Some P1 ->
  derefPod pod2 w2 = Some P2 ->
  syncPeriod P1 = Some period ->
  syncPeriod P2 = Some (strings.TrimSpace period) ->
  exists c,
    run h1 pod1 w1 = (Return c, w1) /\ run h2 pod2 w2 = (Return c, w2).
Proof.
  intros Hh1 Hh2 Hp1 Hp2 Hann1 Hann2.
  rewrite (connectSidecar_returns _ _ w1 h1 pod1 H P1 Hh1 Hp1).
  rewrite (connectSidecar_returns _ _ w2 h2 pod2 H P2 Hh2 Hp2).
  rewrite Hann1, Hann2, TrimSpace_again.
  eexists; split; reflexivity.
Qed.

End ConnectSidecarMore.

(** *** Instances *)

Lemma whiteSpace_blank : whiteSpace " ".
Proof.
  apply (spaces_cons [" "%char] [] 32); [reflexivity|reflexivity|constructor].
Qed.

(** The no-break space U+00A0, in UTF-8. *)
Lemma whiteSpace_nbsp : whiteSpace (String "194" (String "160" "")).
Proof.
  apply (spaces_cons ["194"%char; "160"%char] [] 160);
    [reflexivity|reflexivity|constructor].
Qed.

Lemma connectSidecar_command_layout_witness :
  exists c,
    connectSidecar TestInputs.volumeName TestInputs.annotationSyncPeriod
      (addr 1) (addr 2)
      (TestInputs.world (TestInputs.handler "auth-method")
         (TestInputs.pod {[ TestInputs.annotationSyncPeriod := " 55s " ]}))
    = (Return c,
       TestInputs.world (TestInputs.handler "auth-method")
         (TestInputs.pod {[ TestInputs.annotationSyncPeriod := " 55s " ]}))
    /\ Container.Command c !! 4%nat
       = Some "-token-file=/consul/connect-inject/acl-token"
    /\ last (Container.Command c) = Some "-sync-period=55s".
Proof.
  destruct (connectSidecar_command_layout
              TestInputs.volumeName TestInputs.annotationSyncPeriod
              (TestInputs.world (TestInputs.handler "auth-method")
                 (TestInputs.pod {[ TestInputs.annotationSyncPeriod := " 55s " ]}))
              (addr 1) (addr 2) (TestInputs.handler "auth-method")
              (TestInputs.pod {[ TestInputs.annotationSyncPeriod := " 55s " ]}))
    as (c & Hc & _ & _ & Htoken & Hlast);
    [vm_compute; reflexivity ..|].
  exists c. split; [exact Hc|]. split.
  - apply Htoken. discriminate.
  - apply (Hlast " 55s "). vm_compute. reflexivity.
Defined.

Lemma connectSidecar_command_NoDup_witness :
  exists c,
    connectSidecar TestInputs.volumeName TestInputs.annotationSyncPeriod
      (addr 1) (addr 2)
      (TestInputs.world (TestInputs.handler "auth-method")
         (TestInputs.pod {[ TestInputs.annotationSyncPeriod := "55s" ]}))
    = (Return c,
       TestInputs.world (TestInputs.handler "auth-method")
         (TestInputs.pod {[ TestInputs.annotationSyncPeriod := "55s" ]}))
    /\ NoDup (Container.Command c).
Proof.
  apply (connectSidecar_command_NoDup
           TestInputs.volumeName TestInputs.annotationSyncPeriod
           _ (addr 1) (addr 2) (TestInputs.handler "auth-method")
           (TestInputs.pod {[ TestInputs.annotationSyncPeriod := "55s" ]}));
    vm_compute; reflexivity.
Defined.

Lemma connectSidecar_fixed_parts_witness :
  exists c,
    connectSidecar TestInputs.volumeName TestInputs.annotationSyncPeriod
      (addr 1) (addr 2)
      (TestInputs.world TestInputs.otherHandler (TestInputs.dbPod "1m"))
    = (Return c,
       TestInputs.world TestInputs.otherHandler (TestInputs.dbPod "1m"))
    /\ Container.Name c = "consul-connect-sidecar"
    /\ Container.Image c = "hashicorp/consul-k8s:9.9.9".
Proof.
  destruct (connectSidecar_fixed_parts
              TestInputs.volumeName TestInputs.annotationSyncPeriod
              (TestInputs.world TestInputs.otherHandler (TestInputs.dbPod "1m"))
              (addr 1) (addr 2) TestInputs.otherHandler (TestInputs.dbPod "1m"))
    as (c & Hc & Hname & Himage & _);
    [vm_compute; reflexivity ..|].
  exists c. auto.
Defined.

(** Auth methods of different names, and the value with white space at one
    end or at the other. *)
Lemma connectSidecar_reads_little_witness :
  exists c,
    connectSidecar TestInputs.volumeName TestInputs.annotationSyncPeriod
      (addr 1) (addr 2)
      (TestInputs.world (TestInputs.handler "auth-method")
         (TestInputs.pod {[ TestInputs.annotationSyncPeriod := " 55s" ]}))
    = (Return c,
       TestInputs.world (TestInputs.handler "auth-method")
         (TestInputs.pod {[ TestInputs.annotationSyncPeriod := " 55s" ]}))
    /\ connectSidecar TestInputs.volumeName TestInputs.annotationSyncPeriod
         (addr 1) (addr 2)
         (TestInputs.world (TestInputs.handler "kubernetes")
            (TestInputs.dbPod "55s "))
       = (Return c,
          TestInputs.world (TestInputs.handler "kubernetes")
            (TestInputs.dbPod "55s ")).
Proof.
  apply (connectSidecar_reads_little
           TestInputs.volumeName TestInputs.annotationSyncPeriod
           _ _ (addr 1) (addr 1) (addr 2) (addr 2)
           (TestInputs.handler "auth-method") (TestInputs.handler "kubernetes")
           (TestInputs.pod {[ TestInputs.annotationSyncPeriod := " 55s" ]})
           (TestInputs.dbPod "55s "));
    try (vm_compute; reflexivity).
  split; discriminate.
Defined.

(** A blank before the value and a no-break space after it. *)
Lemma connectSidecar_padding_witness :
  exists c,
    connectSidecar TestInputs.volumeName TestInputs.annotationSyncPeriod
      (addr 1) (addr 2)
      (TestInputs.world (TestInputs.handler "")
         (TestInputs.pod {[ TestInputs.annotationSyncPeriod := "55s" ]}))
    = (Return c,
       TestInputs.world (TestInputs.handler "")
         (TestInputs.pod {[ TestInputs.annotationSyncPeriod := "55s" ]}))
    /\ connectSidecar TestInputs.volumeName TestInputs.annotationSyncPeriod
         (addr 1) (addr 2)
         (TestInputs.world (TestInputs.handler "")
            (TestInputs.pod
               {[ TestInputs.annotationSyncPeriod :=
                    " " +:+ "55s" +:+ String "194" (String "160" "") ]}))
       = (Return c,
          TestInputs.world (TestInputs.handler "")
            (TestInputs.pod
               {[ TestInputs.annotationSyncPeriod :=
                    " " +:+ "55s" +:+ String "194" (String "160" "") ]})).
Proof.
  apply (connectSidecar_padding
           TestInputs.volumeName TestInputs.annotationSyncPeriod
           _ _ (addr 1) (addr 1) (addr 2) (addr 2) (TestInputs.handler "")
           (TestInputs.pod {[ TestInputs.annotationSyncPeriod := "55s" ]})
           (TestInputs.pod
              {[ TestInputs.annotationSyncPeriod :=
                   " " +:+ "55s" +:+ String "194" (String "160" "") ]})
           " " "55s" (String "194" (String "160" "")));
    try (vm_compute; reflexivity).
  - exact whiteSpace_blank.
  - exact whiteSpace_nbsp.
Defined.

(** [TestConnectSidecar_SyncPeriodAnnotation]: ["55s"] is bare and is
    passed as it stands. *)
Lemma connectSidecar_sync_period_verbatim_witness :
  exists c,
    connectSidecar TestInputs.volumeName TestInputs.annotationSyncPeriod
      (addr 1) (addr 2)
      (TestInputs.world (TestInputs.handler "")
         (TestInputs.pod {[ TestInputs.annotationSyncPeriod := "55s" ]}))
    = (Return c,
       TestInputs.world (TestInputs.handler "")
         (TestInputs.pod {[ TestInputs.annotationSyncPeriod := "55s" ]}))
    /\ "-sync-period=55s" ∈ Container.Command c.
Proof.
  destruct (connectSidecar_sync_period_verbatim
              TestInputs.volumeName TestInputs.annotationSyncPeriod
              (TestInputs.world (TestInputs.handler "")
                 (TestInputs.pod {[ TestInputs.annotationSyncPeriod := "55s" ]}))
              (addr 1) (addr 2) (TestInputs.handler "")
              (TestInputs.pod {[ TestInputs.annotationSyncPeriod := "55s" ]})
              "55s")
    as (c & Hc & Hiff);
    [vm_compute; reflexivity ..|].
  exists c. split; [exact Hc|]. apply Hiff.
  right. split; vm_compute; reflexivity.
Defined.

(** An annotation of one blank. *)
Lemma connectSidecar_sync_period_empty_witness :
  exists c,
    connectSidecar TestInputs.volumeName TestInputs.annotationSyncPeriod
      (addr 1) (addr 2)
      (TestInputs.world (TestInputs.handler "")
         (TestInputs.pod {[ TestInputs.annotationSyncPeriod := " " ]}))
    = (Return c,
       TestInputs.world (TestInputs.handler "")
         (TestInputs.pod {[ TestInputs.annotationSyncPeriod := " " ]}))
    /\ "-sync-period=" ∈ Container.Command c.
Proof.
  destruct (connectSidecar_sync_period_empty
              TestInputs.volumeName TestInputs.annotationSyncPeriod
              (TestInputs.world (TestInputs.handler "")
                 (TestInputs.pod {[ TestInputs.annotationSyncPeriod := " " ]}))
              (addr 1) (addr 2) (TestInputs.handler "")
              (TestInputs.pod {[ TestInputs.annotationSyncPeriod := " " ]})
              " ")
    as (c & Hc & Hiff);
    [vm_compute; reflexivity ..|].
  exists c. split; [exact Hc|]. apply Hiff. exact whiteSpace_blank.
Defined.

Lemma connectSidecar_sync_period_again_witness :
  exists c,
    connectSidecar TestInputs.volumeName TestInputs.annotationSyncPeriod
      (addr 1) (addr 2)
      (TestInputs.world (TestInputs.handler "")
         (TestInputs.pod {[ TestInputs.annotationSyncPeriod := " 55s " ]}))
    = (Return c,
       TestInputs.world (TestInputs.handler "")
         (TestInputs.pod {[ TestInputs.annotationSyncPeriod := " 55s " ]}))
    /\ connectSidecar TestInputs.volumeName TestInputs.annotationSyncPeriod
         (addr 1) (addr 2)
         (TestInputs.world (TestInputs.handler "")
            (TestInputs.pod {[ TestInputs.annotationSyncPeriod := "55s" ]}))
       = (Return c,
          TestInputs.world (TestInputs.handler "")
            (TestInputs.pod {[ TestInputs.annotationSyncPeriod := "55s" ]})).
Proof.
  apply (connectSidecar_sync_period_again
           TestInputs.volumeName TestInputs.annotationSyncPeriod
           _ _ (addr 1) (addr 1) (addr 2) (addr 2) (TestInputs.handler "")
           (TestInputs.pod {[ TestInputs.annotationSyncPeriod := " 55s " ]})
           (TestInputs.pod {[ TestInputs.annotationSyncPeriod := "55s" ]})
           " 55s ");
    vm_compute; reflexivity.
Defined.

(** ** Properties of the connect-sidecar command *)

Section CommandFacts.

Import SidecarCommand.

Variable parseDuration : string -> option Z.
Variable loadServices : string -> LoadResult.

Local Abbreviation configure := (configure parseDuration loadServices).
Local Abbreviation Run := (Run parseDuration loadServices).

(** *** Registry calls leave the cancellation state alone *)

Lemma callAll_frame (b : bool) (calls : list RegistryCall) (c : Command) :
  sync (snd (callAll b calls c)) = sync c
  /\ phase (snd (callAll b calls c)) = phase c
  /\ attempts (snd (callAll b calls c)) = attempts c
  /\ teardowns (snd (callAll b calls c)) = teardowns c
  /\ ui (snd (callAll b calls c)) = ui c.
Proof.
  revert c. induction calls as [|call rest IH]; intros c; [cbn; auto|].
  cbn [callAll callRegistry].
  destruct (callAll b rest _) as [oks c'] eqn:E.
  specialize (IH {| sync := sync c; phase := phase c;
                    registry := if b then serve call (registry c) else registry c;
                    issued := (issued c ++ [call])%list;
                    attempts := attempts c; teardowns := teardowns c;
                    ui := ui c |}).
  rewrite E in IH. exact IH.
Qed.

Lemma callAll_up (calls : list RegistryCall) (c : Command) :
  fst (callAll true calls c) = true.
Proof.
  revert c. induction calls as [|call rest IH]; intros c; [reflexivity|].
  cbn [callAll callRegistry].
  destruct (callAll true rest _) as [oks c'] eqn:E.
  specialize (IH {| sync := sync c; phase := phase c;
                    registry := serve call (registry c);
                    issued := (issued c ++ [call])%list;
                    attempts := attempts c; teardowns := teardowns c;
                    ui := ui c |}).
  rewrite E in IH. cbn in *. exact IH.
Qed.

Lemma runOnce_frame (b : bool) (c : Command) :
  latch (sync (runOnce b c)) = latch (sync c)
  /\ cancellation (sync (runOnce b c)) = cancellation (sync c)
  /\ declarations (sync (runOnce b c)) = declarations (sync c)
  /\ phase (runOnce b c) = phase c
  /\ attempts (runOnce b c) = S (attempts c)
  /\ teardowns (runOnce b c) = teardowns c
  /\ ui (runOnce b c) = ui c.
Proof.
  unfold runOnce.
  pose proof (callAll_frame b (RegisterService <$> declarations (sync c)) c) as F.
  destruct (callAll b _ c) as [ok c']. cbn in *.
  destruct F as (-> & -> & -> & -> & ->). auto 10.
Qed.

Lemma deregisterAll_frame (b : bool) (c : Command) :
  sync (snd (deregisterAll b c)) = sync c
  /\ phase (snd (deregisterAll b c)) = phase c
  /\ attempts (snd (deregisterAll b c)) = attempts c
  /\ teardowns (snd (deregisterAll b c)) = S (teardowns c)
  /\ ui (snd (deregisterAll b c))
     = if fst (deregisterAll b c) then ui c
       else (ui c ++ [teardownFailed])%list.
Proof.
  unfold deregisterAll.
  pose proof (callAll_frame b
    ((fun d => DeregisterService (id d)) <$> declarations (sync c)) c) as F.
  destruct (callAll b _ c) as [ok c']. cbn in *.
  destruct F as (-> & -> & -> & -> & ->). auto 10.
Qed.

Lemma deregisterAll_up (c : Command) : fst (deregisterAll true c) = true.
Proof.
  unfold deregisterAll.
  pose proof (callAll_up
    ((fun d => DeregisterService (id d)) <$> declarations (sync c)) c) as F.
  destruct (callAll true _ c) as [ok c']. exact F.
Qed.

(** *** The latch guards the signal in every state of a run *)

Lemma interrupt_guarded (c c' : Command) :
  guarded c = true -> interrupt c = Return c' -> guarded c' = true.
Proof.
  unfold guarded, interrupt.
  destruct (latch (sync c)) eqn:L; [intros G [= <-]; rewrite L; exact G|].
  destruct (cancellation (sync c)); [|discriminate].
  intros _ [= <-]. reflexivity.
Qed.

Lemma reachable_guarded (c : Command) : reachable c -> guarded c = true.
Proof.
  induction 1 as [svcs d r|b c _ IH|c c' _ IH E|p c _ IH|b c _ IH].
  - reflexivity.
  - unfold guarded in *.
    destruct (runOnce_frame b c) as (-> & -> & _). exact IH.
  - exact (interrupt_guarded c c' IH E).
  - exact IH.
  - unfold guarded in *.
    destruct (deregisterAll_frame b c) as (-> & _). exact IH.
Qed.

(** An interrupt in a guarded state returns, closes the signal, and is a
    no-op from then on. *)
Lemma interrupt_once (c : Command) :
  guarded c = true ->
  exists c1,
    interrupt c = Return c1
    /\ cancellation (sync c1) = SignalClosed
    /\ interrupt c1 = Return c1
    /\ phase c1 = phase c /\ attempts c1 = attempts c
    /\ teardowns c1 = teardowns c /\ issued c1 = issued c
    /\ registry c1 = registry c /\ ui c1 = ui c
    /\ declarations (sync c1) = declarations (sync c).
Proof.
  unfold guarded, interrupt.
  destruct (latch (sync c)) eqn:L; destruct (cancellation (sync c)) eqn:S;
    try discriminate; intros _.
  - exists c. rewrite L. auto 10.
  - eexists. split; [reflexivity|]. cbn. auto 10.
Qed.

Lemma interrupts_once (k : nat) (c : Command) :
  guarded c = true -> interrupts (S k) c = interrupt c.
Proof.
  intros G. destruct (interrupt_once c G) as (c1 & E & _ & E1 & _).
  cbn [interrupts]. rewrite E. clear E G c.
  induction k as [|k IH]; [reflexivity|].
  cbn [interrupts]. rewrite E1. exact IH.
Qed.

(** *** The loop, up to the round of the interrupt *)

Lemma loop_interrupted (pre : list Round) (r : Round) (post : list Round)
    (c : Command) :
  reachable c ->
  cancellation (sync c) = SignalOpen ->
  Forall (fun q => fired q = O) pre ->
  fired r <> O ->
  exists c' : Command,
    loop (pre ++ r :: post) c = (Exited 0, c')
    /\ (up r = true -> ui c' = ui c)
    /\ reachable c'
    /\ phase c' = Stopped
    /\ cancellation (sync c') = SignalClosed
    /\ teardowns c' = S (teardowns c)
    /\ attempts c' = (attempts c + length pre + 1)%nat.
Proof.
  intros R O Hpre Hr. revert c R O.
  induction Hpre as [|q pre Hq _ IH]; intros c R O.
  - cbn [app loop].
    assert (R1 : reachable (runOnce (up r) c)) by (constructor; exact R).
    destruct (fired r) as [|k]; [congruence|].
    rewrite (interrupts_once k _ (reachable_guarded _ R1)).
    destruct (interrupt_once _ (reachable_guarded _ R1))
      as (c1 & E & C1 & _ & _ & A1 & T1 & _).
    rewrite E, C1.
    assert (R2 : reachable (setPhase Stopping c1)).
    { constructor. exact (reachable_interrupt _ _ R1 E). }
    pose proof (deregisterAll_frame (up r) (setPhase Stopping c1)) as F.
    assert (U : up r = true ->
                fst (deregisterAll (up r) (setPhase Stopping c1)) = true)
      by (intros ->; apply deregisterAll_up).
    pose proof (reachable_deregisterAll (up r) _ R2) as R3.
    destruct (deregisterAll (up r) (setPhase Stopping c1)) as [ok c2].
    cbn [fst snd] in *. destruct F as (F1 & _ & F3 & F4 & F5).
    exists (setPhase Stopped c2). split; [reflexivity|].
    split.
    { intros Hup. cbn [setPhase ui] in *. rewrite F5, (U Hup).
      destruct (interrupt_once _ (reachable_guarded _ R1))
        as (c1' & E' & _ & _ & _ & _ & _ & _ & _ & U1 & _).
      rewrite E in E'. injection E' as <-. rewrite U1.
      destruct (runOnce_frame (up r) c) as (_ & _ & _ & _ & _ & _ & U0).
      exact U0. }
    split; [constructor; exact R3|].
    split; [reflexivity|]. cbn [setPhase sync attempts teardowns].
    rewrite F1, F3, F4. cbn [setPhase sync attempts teardowns].
    destruct (runOnce_frame (up r) c) as (_ & _ & _ & _ & A & T & _).
    rewrite C1, T1, A1, A, T. cbn [length]. repeat split; lia.
  - cbn [app loop]. rewrite Hq. cbn [interrupts].
    destruct (runOnce_frame (up q) c) as (_ & C & _ & _ & A & T & _).
    rewrite C, O.
    destruct (runOnce_frame (up q) c) as (_ & _ & _ & _ & _ & _ & U0).
    destruct (IH (runOnce (up q) c)) as (c' & E & U' & ? & ? & ? & T' & A');
      [constructor; exact R|rewrite C; exact O|].
    exists c'. rewrite E, T', A', A, T. cbn [length].
    repeat split; try assumption; try lia.
    intros Hup. rewrite (U' Hup). exact U0.
Qed.

(** A file that the loader rejects is fatal too, with the loader's message
    (the second case of [TestRun_ServiceConfigFileInvalid]). *)
Lemma Run_malformed_config
    (flags : Flags) (env : Env) (d : Z) (contents msg : string) :
  flagServiceConfig flags <> "" ->
  parseDuration (flagSyncPeriod flags) = Some d ->
  files env (flagServiceConfig flags) = FileContents contents ->
  loadServices contents = LoadError msg ->
  Run flags env = (Exited 1, fail (ServiceConfigInvalid msg) (idle (registry0 env))).
Proof.
  intros Hpath Hdur Hfile Hload.
  unfold SidecarCommand.Run, SidecarCommand.configure.
  destruct (String.eqb_spec (flagServiceConfig flags) "") as [?|_];
    [contradiction|].
  rewrite Hdur, Hfile, Hload. reflexivity.
Qed.

(** The observations after a fatal configuration error. *)
Local Ltac fatal :=
  cbn; rewrite ?elem_of_cons; repeat split; auto 6; try discriminate.

(** C5.  When the flags are valid and the file loads to a number of
    service declarations other than two (none, for the empty file), [Run]
    fails with the error "expected 2 services to be defined": it exits
    with status 1, without having left the idle state, with no
    registration attempt and no registry call made. *)
Theorem Run_wrong_service_count
    (flags : Flags) (env : Env) (d : Z) (contents : string)
    (svcs : list ServiceDeclaration) :
  flagServiceConfig flags <> "" ->
  parseDuration (flagSyncPeriod flags) = Some d ->
  files env (flagServiceConfig flags) = FileContents contents ->
  loadServices contents = Loaded svcs ->
  length svcs <> 2%nat ->
  exists c,
    Run flags env = (Exited 1, c)
    /\ 1 <> 0
    /\ ui c = ["expected 2 services to be defined"]
    /\ phase c = Idle
    /\ attempts c = 0%nat
    /\ issued c = []
    /\ registry c = registry0 env.
Proof.
  intros Hpath Hdur Hfile Hload Hlen.
  unfold SidecarCommand.Run, SidecarCommand.configure.
  destruct (String.eqb_spec (flagServiceConfig flags) "") as [?|_];
    [contradiction|].
  rewrite Hdur, Hfile, Hload.
  destruct (Nat.eqb_spec (length svcs) 2) as [?|_]; [contradiction|].
  eexists. split; [reflexivity|]. fatal.
Qed.

(** C6.  [Run] ends with status 1, with one message on the UI that says
    what is wrong, and without a registration attempt or a registry call,
    in each of these cases: the service-config path is not given
    ("-service-config must be set"); the path is given and the sync period
    does not parse ("-sync-period is invalid: ...", with the period); the
    flags are in order and there is no file at the path ("-service-config
    file ... not found", with the path); the flags are in order and the
    file cannot be read (the message names the path).  And a run with a
    valid configuration that is interrupted ends with status 0 in the
    stopped state, whether its teardown reaches the registry or not. *)
Theorem Run_terminal_status :
  (forall (flags : Flags) (env : Env),
      flagServiceConfig flags = ""
      \/ parseDuration (flagSyncPeriod flags) = None
      \/ files env (flagServiceConfig flags) = FileNotFound
      \/ files env (flagServiceConfig flags) = FileUnreadable ->
      exists msg c,
        Run flags env = (Exited 1, c)
        /\ 1 <> 0
        /\ ui c = [msg]
        /\ phase c = Idle
        /\ attempts c = 0%nat
        /\ issued c = []
        /\ registry c = registry0 env
        /\ (flagServiceConfig flags = "" ->
            msg = "-service-config must be set")
        /\ (flagServiceConfig flags <> "" ->
            parseDuration (flagSyncPeriod flags) = None ->
            msg = "-sync-period is invalid: time: invalid duration "
                  +:+ flagSyncPeriod flags)
        /\ (flagServiceConfig flags <> "" ->
            parseDuration (flagSyncPeriod flags) <> None ->
            files env (flagServiceConfig flags) = FileNotFound ->
            msg = "-service-config file " +:+ quote
                  +:+ flagServiceConfig flags +:+ quote +:+ " not found")
        /\ (flagServiceConfig flags <> "" ->
            parseDuration (flagSyncPeriod flags) <> None ->
            files env (flagServiceConfig flags) = FileUnreadable ->
            msg = "-service-config file " +:+ quote
                  +:+ flagServiceConfig flags +:+ quote
                  +:+ " could not be read"))
  /\ (forall (flags : Flags) (env : Env) svcs d pre r post,
        configure flags (files env) = inr (svcs, d) ->
        rounds env = (pre ++ r :: post)%list ->
        Forall (fun q => fired q = O) pre ->
        fired r <> O ->
        exists c,
          Run flags env = (Exited 0, c)
          /\ phase c = Stopped
          /\ (up r = true -> ui c = [])).
Proof.
  split.
  - intros flags env Hbad.
    unfold SidecarCommand.Run, SidecarCommand.configure.
    destruct (String.eqb_spec (flagServiceConfig flags) "") as [Hp|Hp].
    { eexists; eexists. split; [reflexivity|]. fatal; congruence. }
    destruct (parseDuration (flagSyncPeriod flags)) as [d|] eqn:Hd; cycle 1.
    { eexists; eexists. split; [reflexivity|]. fatal; congruence. }
    destruct Hbad as [?|[?|[Hf|Hf]]]; [contradiction|discriminate| |];
      rewrite Hf; eexists; eexists; (split; [reflexivity|]);
      fatal; congruence.
  - intros flags env svcs d pre r post Hcfg Hrounds Hpre Hr.
    unfold SidecarCommand.Run. rewrite Hcfg, Hrounds.
    destruct (loop_interrupted pre r post (start svcs d (registry0 env)))
      as (c & E & Hui & _ & Hphase & _); try assumption.
    { constructor. }
    { reflexivity. }
    exists c. rewrite E. split; [reflexivity|]. split; [exact Hphase|].
    exact Hui.
Qed.


(** *** The registry down, then up *)

(** An attempt with two declarations, written out. *)
Lemma runOnce_two (b : bool) (c : Command) (s1 s2 : ServiceDeclaration) :
  declarations (sync c) = [s1; s2] ->
  runOnce b c =
    {| sync := recordOutcome b (sync c);
       phase := phase c;
       registry :=
         if b then serve (RegisterService s2)
                     (serve (RegisterService s1) (registry c))
         else registry c;
       issued :=
         ((issued c ++ [RegisterService s1]) ++ [RegisterService s2])%list;
       attempts := S (attempts c);
       teardowns := teardowns c;
       ui := ui c |}.
Proof.
  intros E. unfold runOnce. rewrite E.
  cbn [fmap list_fmap callAll callRegistry sync phase registry issued attempts
       teardowns ui].
  destruct b; reflexivity.
Qed.

(** Rounds without interrupt are attempts one after the other. *)
Lemma loop_quiet (b : bool) (n : nat) (rest : list Round) (c : Command) :
  cancellation (sync c) = SignalOpen ->
  loop (replicate n {| up := b; fired := 0 |} ++ rest) c
  = loop rest (Nat.iter n (runOnce b) c).
Proof.
  revert c. induction n as [|n IH]; intros c Ho; [reflexivity|].
  cbn [replicate app loop up fired interrupts].
  destruct (runOnce_frame b c) as (_ & C & _).
  rewrite C, Ho, IH by (rewrite C; exact Ho).
  rewrite Nat.iter_succ_r. reflexivity.
Qed.

(** While the registry is down the attempts fail and leave it alone. *)
Lemma attempts_down (n : nat) (c : Command) (s1 s2 : ServiceDeclaration) :
  declarations (sync c) = [s1; s2] ->
  let c' := Nat.iter n (runOnce false) c in
  declarations (sync c') = [s1; s2]
  /\ cancellation (sync c') = cancellation (sync c)
  /\ interval (sync c') = interval (sync c)
  /\ registry c' = registry c
  /\ attempts c' = (attempts c + n)%nat
  /\ length (issued c') = (length (issued c) + 2 * n)%nat
  /\ phase c' = phase c
  /\ ui c' = ui c
  /\ (n <> O -> lastOutcome (sync c') = Some false).
Proof.
  intros Hd. induction n as [|n IH]; cbn zeta in *.
  - cbn [Nat.iter nat_rect]. repeat split; auto; try lia; congruence.
  - destruct IH as (Hd' & Ho' & Hi' & Hr' & Ha' & Hl' & Hp' & Hu' & _).
    rewrite Nat.iter_succ, (runOnce_two false _ s1 s2 Hd').
    cbn [sync recordOutcome declarations cancellation interval registry
         attempts issued phase ui lastOutcome].
    rewrite !length_app. cbn [length].
    repeat split; auto; lia.
Qed.

(** C8.  A command started with two declarations against a registry that
    is down for [n] rounds and up from the next on makes an attempt in
    every round, at the one interval it was configured with.  As long as
    the registry is down the attempts fail, the registry holds what it held
    and its server sees nothing.  The first attempt with the registry up,
    attempt [n + 1], succeeds: both declarations are in the registry and
    its server has seen exactly two calls, the registration of the first
    declaration and then that of the second. *)
Theorem Run_registry_comes_up
    (flags : Flags) (fs : string -> FileStatus) (r0 : Registry)
    (s1 s2 : ServiceDeclaration) (d : Z) (n : nat) :
  configure flags fs = inr ([s1; s2], d) ->
  (exists c0,
     Run flags {| files := fs; registry0 := r0;
                  rounds := replicate n {| up := false; fired := 0 |} |}
     = (StillRunning, c0)
     /\ attempts c0 = n
     /\ interval (sync c0) = d
     /\ registry c0 = r0
     /\ (n <> O -> lastOutcome (sync c0) = Some false))
  /\ (exists c,
        Run flags {| files := fs; registry0 := r0;
                     rounds :=
                       (replicate n {| up := false; fired := 0 |}
                        ++ [ {| up := true; fired := 0 |} ])%list |}
        = (StillRunning, c)
        /\ attempts c = S n
        /\ interval (sync c) = d
        /\ lastOutcome (sync c) = Some true
        /\ observed (registry c)
           = (observed r0 ++ [RegisterService s1; RegisterService s2])%list
        /\ services (registry c)
           = <[ id s2 := s2 ]> (<[ id s1 := s1 ]> (services r0))
        /\ length (issued c) = (2 * S n)%nat
        /\ phase c = Running
        /\ ui c = []).
Proof.
  intros Hcfg. unfold SidecarCommand.Run.
  cbn [files registry0 rounds]. rewrite Hcfg.
  pose proof (attempts_down n (start [s1; s2] d r0) s1 s2 eq_refl) as F.
  cbn zeta in F.
  destruct F as (Hd & Ho & Hi & Hr & Ha & Hl & Hp & Hu & Hlast).
  split.
  - rewrite <- (app_nil_r (replicate n _)), loop_quiet by reflexivity.
    eexists. split; [reflexivity|]. auto.
  - rewrite loop_quiet by reflexivity.
    cbn [loop up fired interrupts].
    rewrite (runOnce_two true _ s1 s2 Hd).
    cbn [sync recordOutcome cancellation]. rewrite Ho.
    cbn [start sync cancellation].
    eexists. split; [reflexivity|].
    cbn [sync recordOutcome interval lastOutcome registry attempts issued
         phase ui serve observed services].
    rewrite Hi, Hr, Ha, Hp, Hu, !length_app, Hl, <- app_assoc.
    cbn. repeat split; auto; lia.
Qed.

End CommandFacts.

(** *** The tests of [command_test.go], by evaluation *)

(** [TestRun_ServicesRegistration]: after the first round the registry
    holds [service-id] on port 80 and [service-id-sidecar-proxy] on port
    2000, and the command is still running. *)
Example TestRun_ServicesRegistration :
  let '(t, c) :=
    SidecarCommand.Run SidecarCommand.testParseDuration SidecarCommand.testLoader
      {| SidecarCommand.flagHTTPAddr := "127.0.0.1:8500";
         SidecarCommand.flagServiceConfig := "/tmp/svc.hcl";
         SidecarCommand.flagSyncPeriod := "100ms" |}
      {| SidecarCommand.files := SidecarCommand.testFiles;
         SidecarCommand.registry0 := SidecarCommand.emptyRegistry;
         SidecarCommand.rounds :=
           [ {| SidecarCommand.up := true; SidecarCommand.fired := 0 |} ] |} in
  t = SidecarCommand.StillRunning
  /\ SidecarCommand.port <$>
       (SidecarCommand.services (SidecarCommand.registry c) !! "service-id")
     = Some 80
  /\ SidecarCommand.port <$>
       (SidecarCommand.services (SidecarCommand.registry c)
          !! "service-id-sidecar-proxy")
     = Some 2000.
Proof. vm_compute. repeat split. Qed.

(** [TestRun_ServicesRegistration_ConsulDown], round by round: the registry
    is down for five rounds and up in the sixth; the six attempts have made
    twelve calls, of which the server has seen the two of the sixth. *)
Example TestRun_ServicesRegistration_ConsulDown :
  let '(t, c) :=
    SidecarCommand.Run SidecarCommand.testParseDuration SidecarCommand.testLoader
      {| SidecarCommand.flagHTTPAddr := "127.0.0.1:10000";
         SidecarCommand.flagServiceConfig := "/tmp/svc.hcl";
         SidecarCommand.flagSyncPeriod := "100ms" |}
      {| SidecarCommand.files := SidecarCommand.testFiles;
         SidecarCommand.registry0 := SidecarCommand.emptyRegistry;
         SidecarCommand.rounds :=
           (replicate 5 {| SidecarCommand.up := false; SidecarCommand.fired := 0 |}
            ++ [ {| SidecarCommand.up := true; SidecarCommand.fired := 0 |} ])%list
      |} in
  t = SidecarCommand.StillRunning
  /\ SidecarCommand.attempts c = 6%nat
  /\ length (SidecarCommand.issued c) = 12%nat
  /\ SidecarCommand.observed (SidecarCommand.registry c)
     = [ SidecarCommand.RegisterService SidecarCommand.service;
         SidecarCommand.RegisterService SidecarCommand.sidecarProxy ].
Proof. vm_compute. repeat split. Qed.

(** [stopCommand] with the registry down: the teardown pass makes its two
    calls, neither reaches the registry, the failure is written to the UI
    and the status is zero. *)
Example stopCommand_registry_down :
  let '(t, c) :=
    SidecarCommand.Run SidecarCommand.testParseDuration SidecarCommand.testLoader
      {| SidecarCommand.flagHTTPAddr := "127.0.0.1:10000";
         SidecarCommand.flagServiceConfig := "/tmp/svc.hcl";
         SidecarCommand.flagSyncPeriod := "100ms" |}
      {| SidecarCommand.files := SidecarCommand.testFiles;
         SidecarCommand.registry0 := SidecarCommand.emptyRegistry;
         SidecarCommand.rounds :=
           [ {| SidecarCommand.up := false; SidecarCommand.fired := 1 |} ]
      |} in
  t = SidecarCommand.Exited 0
  /\ SidecarCommand.phase c = SidecarCommand.Stopped
  /\ SidecarCommand.ui c = [SidecarCommand.teardownFailed]
  /\ SidecarCommand.teardowns c = 1%nat
  /\ length (SidecarCommand.issued c) = 4%nat
  /\ SidecarCommand.registry c = SidecarCommand.emptyRegistry.
Proof. vm_compute. repeat split. Qed.

(** *** The tests of [command_test.go], as instances *)

(** [TestRun_ServiceConfigFileInvalid], the case of the empty file *)
Lemma Run_wrong_service_count_witness :
  exists c,
    SidecarCommand.Run SidecarCommand.testParseDuration SidecarCommand.testLoader
      {| SidecarCommand.flagHTTPAddr := "";
         SidecarCommand.flagServiceConfig := "/tmp/empty/svc.hcl";
         SidecarCommand.flagSyncPeriod := "10s" |}
      {| SidecarCommand.files := SidecarCommand.testFiles;
         SidecarCommand.registry0 := SidecarCommand.emptyRegistry;
         SidecarCommand.rounds := [] |}
    = (SidecarCommand.Exited 1, c)
    /\ SidecarCommand.ui c = ["expected 2 services to be defined"]
    /\ SidecarCommand.issued c = [].
Proof.
  destruct (Run_wrong_service_count
              SidecarCommand.testParseDuration SidecarCommand.testLoader
              {| SidecarCommand.flagHTTPAddr := "";
                 SidecarCommand.flagServiceConfig := "/tmp/empty/svc.hcl";
                 SidecarCommand.flagSyncPeriod := "10s" |}
              {| SidecarCommand.files := SidecarCommand.testFiles;
                 SidecarCommand.registry0 := SidecarCommand.emptyRegistry;
                 SidecarCommand.rounds := [] |}
              10000000000 "" [])
    as (c & HRun & _ & Hui & _ & _ & Hissued & _);
    [discriminate | reflexivity | reflexivity | reflexivity | discriminate |].
  exists c. repeat split; assumption.
Defined.

(** [TestRun_ServiceConfigFileMissing], and [stopCommand] after three
    rounds, the interrupt fired in the third with the registry down. *)
Lemma Run_terminal_status_witness :
  (exists c,
     SidecarCommand.Run SidecarCommand.testParseDuration SidecarCommand.testLoader
       {| SidecarCommand.flagHTTPAddr := "";
          SidecarCommand.flagServiceConfig := "/does/not/exist";
          SidecarCommand.flagSyncPeriod := "10s" |}
       {| SidecarCommand.files := SidecarCommand.testFiles;
          SidecarCommand.registry0 := SidecarCommand.emptyRegistry;
          SidecarCommand.rounds := [] |}
     = (SidecarCommand.Exited 1, c)
     /\ SidecarCommand.ui c
        = ["-service-config file " +:+ SidecarCommand.quote
           +:+ "/does/not/exist" +:+ SidecarCommand.quote +:+ " not found"]
     /\ SidecarCommand.issued c = [])
  /\ (exists c,
        SidecarCommand.Run SidecarCommand.testParseDuration SidecarCommand.testLoader
          {| SidecarCommand.flagHTTPAddr := "127.0.0.1:8500";
             SidecarCommand.flagServiceConfig := "/tmp/svc.hcl";
             SidecarCommand.flagSyncPeriod := "100ms" |}
          {| SidecarCommand.files := SidecarCommand.testFiles;
             SidecarCommand.registry0 := SidecarCommand.emptyRegistry;
             SidecarCommand.rounds :=
               [ {| SidecarCommand.up := true; SidecarCommand.fired := 0 |};
                 {| SidecarCommand.up := true; SidecarCommand.fired := 0 |};
                 {| SidecarCommand.up := false; SidecarCommand.fired := 1 |} ] |}
        = (SidecarCommand.Exited 0, c)
        /\ SidecarCommand.phase c = SidecarCommand.Stopped).
Proof.
  destruct (Run_terminal_status
              SidecarCommand.testParseDuration SidecarCommand.testLoader)
    as [Hfatal Hclean].
  split.
  - destruct (Hfatal
                {| SidecarCommand.flagHTTPAddr := "";
                   SidecarCommand.flagServiceConfig := "/does/not/exist";
                   SidecarCommand.flagSyncPeriod := "10s" |}
                {| SidecarCommand.files := SidecarCommand.testFiles;
                   SidecarCommand.registry0 := SidecarCommand.emptyRegistry;
                   SidecarCommand.rounds := [] |})
      as (msg & c & HRun & _ & Hui & _ & _ & Hissued & _ & _ & _ & Hmsg & _).
    + right. right. left. reflexivity.
    + exists c. split; [exact HRun|]. split; [|exact Hissued].
      rewrite Hui, Hmsg; [reflexivity|discriminate|discriminate|reflexivity].
  - destruct (Hclean
             {| SidecarCommand.flagHTTPAddr := "127.0.0.1:8500";
                SidecarCommand.flagServiceConfig := "/tmp/svc.hcl";
                SidecarCommand.flagSyncPeriod := "100ms" |}
             {| SidecarCommand.files := SidecarCommand.testFiles;
                SidecarCommand.registry0 := SidecarCommand.emptyRegistry;
                SidecarCommand.rounds :=
                  [ {| SidecarCommand.up := true; SidecarCommand.fired := 0 |};
                    {| SidecarCommand.up := true; SidecarCommand.fired := 0 |};
                    {| SidecarCommand.up := false; SidecarCommand.fired := 1 |} ] |}
             [SidecarCommand.service; SidecarCommand.sidecarProxy] 100000000
             [ {| SidecarCommand.up := true; SidecarCommand.fired := 0 |};
               {| SidecarCommand.up := true; SidecarCommand.fired := 0 |} ]
             {| SidecarCommand.up := false; SidecarCommand.fired := 1 |} [])
      as (c & HRun & Hphase & _).
    + reflexivity.
    + reflexivity.
    + repeat constructor.
    + discriminate.
    + exists c. split; assumption.
Defined.


(** [TestRun_ServicesRegistration_ConsulDown]: the registry is down for
    five rounds and up in the sixth. *)
Lemma Run_registry_comes_up_witness :
  (exists c0,
     SidecarCommand.Run SidecarCommand.testParseDuration SidecarCommand.testLoader
       {| SidecarCommand.flagHTTPAddr := "127.0.0.1:10000";
          SidecarCommand.flagServiceConfig := "/tmp/svc.hcl";
          SidecarCommand.flagSyncPeriod := "100ms" |}
       {| SidecarCommand.files := SidecarCommand.testFiles;
          SidecarCommand.registry0 := SidecarCommand.emptyRegistry;
          SidecarCommand.rounds :=
            replicate 5 {| SidecarCommand.up := false;
                           SidecarCommand.fired := 0 |} |}
     = (SidecarCommand.StillRunning, c0)
     /\ SidecarCommand.attempts c0 = 5%nat
     /\ SidecarCommand.registry c0 = SidecarCommand.emptyRegistry)
  /\ (exists c,
        SidecarCommand.Run SidecarCommand.testParseDuration SidecarCommand.testLoader
          {| SidecarCommand.flagHTTPAddr := "127.0.0.1:10000";
             SidecarCommand.flagServiceConfig := "/tmp/svc.hcl";
             SidecarCommand.flagSyncPeriod := "100ms" |}
          {| SidecarCommand.files := SidecarCommand.testFiles;
             SidecarCommand.registry0 := SidecarCommand.emptyRegistry;
             SidecarCommand.rounds :=
               (replicate 5 {| SidecarCommand.up := false;
                               SidecarCommand.fired := 0 |}
                ++ [ {| SidecarCommand.up := true;
                        SidecarCommand.fired := 0 |} ])%list |}
        = (SidecarCommand.StillRunning, c)
        /\ SidecarCommand.attempts c = 6%nat
        /\ SidecarCommand.observed (SidecarCommand.registry c)
           = [ SidecarCommand.RegisterService SidecarCommand.service;
               SidecarCommand.RegisterService SidecarCommand.sidecarProxy ]).
Proof.
  destruct (Run_registry_comes_up
              SidecarCommand.testParseDuration SidecarCommand.testLoader
              {| SidecarCommand.flagHTTPAddr := "127.0.0.1:10000";
                 SidecarCommand.flagServiceConfig := "/tmp/svc.hcl";
                 SidecarCommand.flagSyncPeriod := "100ms" |}
              SidecarCommand.testFiles SidecarCommand.emptyRegistry
              SidecarCommand.service SidecarCommand.sidecarProxy
              100000000 5 eq_refl)
    as [(c0 & HRun0 & Ha0 & _ & Hr0 & _)
        (c & HRun & Ha & _ & _ & Hobs & _)].
  split.
  - exists c0. repeat split; assumption.
  - exists c. repeat split; assumption.
Defined.

(** ** The port of [TestRun_ServicesRegistration_ConsulDown]

    X11.  Whatever non-negative [int] [rand.Int] returns, the port is
    between 10000 and 19999: a port number, and not a privileged one. *)
Theorem randomPort_range (r : Z) :
  0 <= r < 2 ^ 63 ->
  10000 <= CommandTest.randomPort r <= 19999.
Proof.
  intros Hr. unfold CommandTest.randomPort, CommandTest.wrap64.
  pose proof (Z.rem_bound_pos r 10000 ltac:(lia) ltac:(lia)) as Hb.
  rewrite Z.mod_small by lia. lia.
Qed.

Lemma randomPort_range_witness :
  10000 <= CommandTest.randomPort 8674665223082153551 <= 19999.
Proof.
  apply randomPort_range. split; [discriminate|reflexivity].
Defined.
